(** * Verification of the G-Core external-dns webhook provider

    A shallow embedding of [gcoreprovider/gcore.go] (zone resolution, content
    diffing, the apply orchestrator) and of the parts of the G-Core DNS SDK
    client it drives (RRSet requests, [DeleteRRSetRecord], [AddZoneRRSet],
    [AllZonesWithRecords]).

    Go strings are modelled as [string] (sequences of bytes), slices as
    lists, [map[string]string] as [gmap string string], errors as a small
    inductive type that keeps the [%w] wrapping chain, and goroutines started
    through [errgroup] as a pool of client programs stepped by an
    interleaving transition relation. *)

From Stdlib Require Import ZArith Ascii String List Bool Lia Permutation.
From stdpp Require Import base option list gmap strings relations.

Open Scope string_scope.
Open Scope list_scope.

(** ** Go's [strings] package, restricted to one-byte cut sets and separators *)

(** [strings.TrimLeft(s, string(c))] *)
Fixpoint TrimLeft (s : string) (c : ascii) : string :=
  match s with
  | EmptyString => EmptyString
  | String a s' => if Ascii.eqb a c then TrimLeft s' c else s
  end.

(** [strings.TrimRight(s, string(c))] *)
Fixpoint TrimRight (s : string) (c : ascii) : string :=
  match s with
  | EmptyString => EmptyString
  | String a s' =>
      match TrimRight s' c with
      | EmptyString => if Ascii.eqb a c then EmptyString else String a EmptyString
      | t => String a t
      end
  end.

(** [strings.Trim(s, string(c))] *)
Definition Trim (s : string) (c : ascii) : string := TrimRight (TrimLeft s c) c.

(** [strings.Split(s, string(sep))]: never empty, one more part than there
    are separators. *)
Fixpoint Split (s : string) (sep : ascii) : list string :=
  match s with
  | EmptyString => [EmptyString]
  | String a s' =>
      if Ascii.eqb a sep then EmptyString :: Split s' sep
      else match Split s' sep with
           | [] => [String a EmptyString]
           | p :: ps => String a p :: ps
           end
  end.

(** [strings.Join(parts, sep)] *)
Fixpoint Join (parts : list string) (sep : string) : string :=
  match parts with
  | [] => EmptyString
  | [p] => p
  | p :: ps => p ++ sep ++ Join ps sep
  end.

Definition dot : ascii := "."%char.

(** ** Zone resolver ([gcore.go], [extractAllZones] and [zoneFromDNSNameGetter]) *)

(** [extractAllZones]: the loop [for i := 0; i < len(parts)-1; i++] appends
    [strings.Join(parts[i:], ".")]. *)
Definition extractAllZones (dnsName : string) : list string :=
  let parts := Split (Trim dnsName dot) dot in
  if (length parts <? 2)%nat then []
  else map (fun i => Join (drop i parts) ".") (seq 0 (length parts - 1)).

(** The [search] map built from [existingZones.Filters]:
    [search[zone] = strings.Trim(zone, ".")]. *)
Definition searchMap (filters : list string) : gmap string string :=
  foldl (fun search zone => <[zone := Trim zone dot]> search) ∅ filters.

(** The closure's loop over [extractAllZones(name)]. *)
Fixpoint firstZone (search : gmap string string) (possible : list string) : string :=
  match possible with
  | [] => ""
  | possibleZone :: rest =>
      match search !! possibleZone with
      | Some result => result
      | None => firstZone search rest
      end
  end.

Definition zoneFromDNSNameGetter (filters : list string) : string -> string :=
  let search := searchMap filters in
  fun name => firstZone search (extractAllZones name).

(** ** Endpoints and change sets (external-dns [endpoint.Endpoint], [plan.Changes]) *)

Record Endpoint := {
  DNSName : string;
  Targets : list string;
  RecordType : string;
  RecordTTL : Z
}.

Record Changes := {
  Create : list Endpoint;
  UpdateOld : list Endpoint;
  UpdateNew : list Endpoint;
  Delete : list Endpoint
}.

(** ** Content differ ([gcore.go], [unexistingTargets]) *)

(** The inner loop that sets [exist] and breaks on the first equal target. *)
Fixpoint targetExists (fromTar : string) (targets : list string) : bool :=
  match targets with
  | [] => false
  | curTar :: rest => if String.eqb curTar fromTar then true else targetExists fromTar rest
  end.

(** The outer loop: keeps, in order, each [fromTar] for which [exist] stayed false. *)
Fixpoint missingFrom (from against : list string) : list string :=
  match from with
  | [] => []
  | fromTar :: rest =>
      if targetExists fromTar against then missingFrom rest against
      else fromTar :: missingFrom rest against
  end.

Fixpoint unexistingTargets (existing : Endpoint) (toCompare : list Endpoint)
    (diffFromExisting : bool) : list string :=
  match toCompare with
  | [] => []
  | compare :: rest =>
      if negb (String.eqb (RecordType compare) (RecordType existing))
         || negb (String.eqb (DNSName compare) (DNSName existing))
      then unexistingTargets existing rest diffFromExisting
      else if diffFromExisting
           then missingFrom (Targets existing) (Targets compare)
           else missingFrom (Targets compare) (Targets existing)
  end.

(** ** Errors

    Go [error] values, keeping what the code inspects: the SDK's [APIError]
    (status code and message), the [%w] wrapping done by [fmt.Errorf]
    ([Errorf prefix err] stands for [fmt.Errorf("<prefix>: %w", err)]), and
    any other error (transport failures, cancelled contexts, decoding). *)
Inductive error : Type :=
| APIError (StatusCode : Z) (Message : string)
| Errorf (prefix : string) (err : error)
| OtherError (msg : string).

(** [errors.As(err, new(APIError))]: the first [APIError] in the wrap chain. *)
Fixpoint AsAPIError (err : error) : option (Z * string) :=
  match err with
  | APIError code msg => Some (code, msg)
  | Errorf _ inner => AsAPIError inner
  | OtherError _ => None
  end.

Definition StatusNotFound : Z := 404.

(** [errors.As(err, statusErr) && statusErr.StatusCode == http.StatusNotFound] *)
Definition isNotFound (err : error) : bool :=
  match AsAPIError err with
  | Some (code, _) => (code =? StatusNotFound)%Z
  | None => false
  end.

(** [errSafeWrap] of [gcore.go]. *)
Definition errSafeWrap (msg : string) (err : option error) : option error :=
  match err with
  | None => None
  | Some e => Some (Errorf msg e)
  end.

Definition ProviderName : string := "gcore".
Definition logDryRun : string := "[DryRun] ".

(** Go's [uint] counter increment on a 64-bit platform. *)
Definition uint_incr (n : Z) : Z := ((n + 1) mod 2 ^ 64)%Z.

(** ** What lies outside the embedding

    Dynamically typed record content ([[]any]): its values come from JSON
    decoding and from [strconv.ParseInt] and [strconv.ParseFloat], and are
    rendered with [fmt.Sprint]. The provider only ever builds content with
    [ContentFromValue] and reads it back with [ContentToString], so the type
    and these two functions of the SDK are taken as an interface, together
    with the two functions of external-dns the provider calls:
    [endpoint.NewDomainFilter] (the normalisation of the list of domains)
    and [plan.Changes.HasChanges]. Every statement of the development holds
    for all implementations of the interface. *)
Class External := {
  any : Type;
  ContentFromValue : string -> string -> list any;
  ContentToString : list any -> string;
  NewDomainFilter : list string -> list string;
  HasChanges : Changes -> bool
}.

Section Provider.

Context {ext : External}.

(** ** SDK data types *)

Record ResourceRecord := {
  Content : list any;
  Meta : list (string * any);
  Enabled : bool
}.

Record RecordFilter := {
  FilterLimit : Z;
  FilterType : string;
  FilterStrict : bool
}.

Record RRSet := {
  RRType : string;
  TTL : Z;
  Records : list ResourceRecord;
  Filters : list RecordFilter;
  RRMeta : list (string * any)
}.

Record ZoneRecord := {
  ZRName : string;
  ZRType : string;
  ZRTTL : Z;
  ShortAnswers : list string
}.

Record Zone := {
  ZoneName : string;
  ZoneRecords : list ZoneRecord
}.

Record ListZones := {
  LZZones : list Zone;
  LZTotalAmount : Z;
  LZError : string
}.

(** [ResourceRecord.SetContent] on [ResourceRecord{Enabled: true}]. *)
Definition newRecord (recordType content : string) : ResourceRecord :=
  {| Content := ContentFromValue recordType content; Meta := []; Enabled := true |}.

(** [ResourceRecord.ContentToString] *)
Definition recordString (r : ResourceRecord) : string := ContentToString (Content r).

(** ** The client's HTTP requests on RRSet resources

    [path.Join("/v2/zones", zone, name, recordType)] after trimming the dots
    of [zone] and [name]; the three segments identify the resource. *)
Definition uri : Type := (string * string * string)%type.

Definition rrsetURI (zone name recordType : string) : uri :=
  (Trim zone dot, Trim name dot, recordType).

Inductive request : Type :=
| ReqGet (u : uri)
| ReqPost (u : uri) (body : RRSet)
| ReqPut (u : uri) (body : RRSet)
| ReqDelete (u : uri).

(** What [Client.do] observes: a 2xx answer with a decodable body, a 2xx
    answer without one, or an error (an [APIError] for a status of 300 and
    above, anything else for transport and decoding failures). *)
Inductive response : Type :=
| RespRRSet (r : RRSet)
| RespOK
| RespErr (e : error).

(** A client method: a tree of requests, each continued on its response. *)
Inductive client (A : Type) : Type :=
| Return (a : A)
| Http (req : request) (k : response -> client A).

Arguments Return {A} a.
Arguments Http {A} req k.

Fixpoint bind {A B : Type} (m : client A) (f : A -> client B) : client B :=
  match m with
  | Return a => f a
  | Http req k => Http req (fun resp => bind (k resp) f)
  end.

(** [c.do(ctx, method, uri, body, &dest)]: the body is decoded into [dest];
    decoding an empty body fails. *)
Definition doDecode (req : request) : client (RRSet + error) :=
  Http req (fun resp =>
    match resp with
    | RespRRSet r => Return (inl r)
    | RespOK => Return (inr (OtherError "EOF"))
    | RespErr e => Return (inr e)
    end).

(** [c.do(ctx, method, uri, body, nil)]: the body is read and dropped. *)
Definition doNoDest (req : request) : client (option error) :=
  Http req (fun resp =>
    match resp with
    | RespRRSet _ => Return None
    | RespOK => Return None
    | RespErr e => Return (Some e)
    end).

(** [Client.RRSet] *)
Definition Client_RRSet (zone name recordType : string) : client (RRSet + error) :=
  bind (doDecode (ReqGet (rrsetURI zone name recordType))) (fun res =>
    match res with
    | inr err =>
        Return (inr (Errorf ("request " ++ Trim zone dot ++ " -> " ++ Trim name dot) err))
    | inl result => Return (inl result)
    end).

(** [Client.DeleteRRSet] *)
Definition Client_DeleteRRSet (zone name recordType : string) : client (option error) :=
  bind (doNoDest (ReqDelete (rrsetURI zone name recordType))) (fun err =>
    match err with
    | Some e =>
        if isNotFound e then Return None
        else Return (Some (Errorf "delete record request" e))
    | None => Return None
    end).

(** [Client.CreateRRSet] and [Client.UpdateRRSet] *)
Definition Client_CreateRRSet (zone name recordType : string) (record : RRSet)
  : client (option error) :=
  doNoDest (ReqPost (rrsetURI zone name recordType) record).

Definition Client_UpdateRRSet (zone name recordType : string) (record : RRSet)
  : client (option error) :=
  doNoDest (ReqPut (rrsetURI zone name recordType) record).

(** The inner loop of [DeleteRRSetRecord]: is [record] one of [contents]? *)
Fixpoint toDeleteMatches (contents : list string) (record : ResourceRecord) : bool :=
  match contents with
  | [] => false
  | toDelete :: rest =>
      if String.eqb toDelete (recordString record) then true
      else toDeleteMatches rest record
  end.

(** The [LOOP:] of [DeleteRRSetRecord] building [newRecords]. *)
Fixpoint keptRecords (contents : list string) (records : list ResourceRecord)
  : list ResourceRecord :=
  match records with
  | [] => []
  | record :: rest =>
      if (length (Content record) =? 0)%nat then keptRecords contents rest
      else if toDeleteMatches contents record then keptRecords contents rest
      else record :: keptRecords contents rest
  end.

Definition withRecords (rrSet : RRSet) (records : list ResourceRecord) : RRSet :=
  {| RRType := RRType rrSet; TTL := TTL rrSet; Records := records;
     Filters := Filters rrSet; RRMeta := RRMeta rrSet |}.

(** [Client.DeleteRRSetRecord] *)
Definition Client_DeleteRRSetRecord (zone name recordType : string)
    (contents : list string) : client (option error) :=
  bind (Client_RRSet zone name recordType) (fun res =>
    match res with
    | inr err =>
        if isNotFound err then Return None
        else Return (Some (Errorf "rrset" err))
    | inl rrSet =>
        if (length (Records rrSet) =? 0)%nat then Return None
        else
          let newRecords := keptRecords contents (Records rrSet) in
          if (length newRecords =? 0)%nat then
            bind (Client_DeleteRRSet zone name recordType) (fun err =>
              Return (errSafeWrap "delete rrset" err))
          else
            bind (Client_UpdateRRSet zone name recordType (withRecords rrSet newRecords))
              (fun err => Return (errSafeWrap "update rrset" err))
    end).

(** [Client.AddZoneRRSet] called without options. *)
Definition Client_AddZoneRRSet (zone recordName recordType : string)
    (values : list ResourceRecord) (ttl : Z) : client (option error) :=
  let record := {| RRType := ""; TTL := ttl; Records := values;
                   Filters := []; RRMeta := [] |} in
  bind (Client_RRSet zone recordName recordType) (fun res =>
    match res with
    | inl records =>
        if (0 <? length (Records records))%nat then
          Client_UpdateRRSet zone recordName recordType
            (withRecords record (Records record ++ Records records))
        else Client_CreateRRSet zone recordName recordType record
    | inr _ => Client_CreateRRSet zone recordName recordType record
    end).

(** Running a client method against a server given as a transition
    function; returns the result, the final server state and the requests
    issued, oldest first. *)
Fixpoint exec {S A : Type} (serve : S -> request -> response * S)
    (m : client A) (s : S) : A * S * list request :=
  match m with
  | Return a => (a, s, [])
  | Http req k =>
      let '(resp, s') := serve s req in
      let '(a, s'', reqs) := exec serve (k resp) s' in
      (a, s'', req :: reqs)
  end.

(** ** Zone listing ([AllZones], [AllZonesWithRecords]) *)

(** [Client.AllZones]: the loop [for z := 0; z < 10; z++] over the pages
    served by [ZonesWithParam]; [page offset] is the outcome of
    [c.do(GET /v2/zones?offset=..&limit=1000&name=..)]. *)
Fixpoint AllZonesLoop (page : Z -> ListZones + error) (rounds : nat)
    (offset : Z) (zones : list Zone) : list Zone * option error :=
  match rounds with
  | O => (zones, None)
  | S rounds' =>
      match page offset with
      | inr err => (zones, Some (Errorf "request" err))
      | inl zoneRes =>
          let zones' := zones ++ LZZones zoneRes in
          if negb (String.eqb (LZError zoneRes) "")
          then (zones', Some (OtherError ("request: " ++ LZError zoneRes)))
          else
            let fetchedZones := length (LZZones zoneRes) in
            if (fetchedZones =? 0)%nat || (fetchedZones <? 1000)%nat
            then (zones', None)
            else AllZonesLoop page rounds' (offset + 1000)%Z zones'
      end
  end.

Definition AllZones (page : Z -> ListZones + error) : list Zone * option error :=
  AllZonesLoop page 10 0%Z [].

(** [Client.Zone]: [fetch name] is the outcome of [c.do(GET /v2/zones/<name>)]. *)
Definition Client_Zone (fetch : string -> Zone + error) (name : string) : Zone + error :=
  let name := Trim name dot in
  match fetch name with
  | inr err => inr (Errorf ("get zone " ++ name) err)
  | inl zone => inl zone
  end.

(** The goroutine started for [zones[i]] in [AllZonesWithRecords]; [fetch i]
    is what the server answers to that goroutine. On success it stores the
    fetched zone in slot [i] of the shared slice. *)
Definition zoneTask (fetch : nat -> string -> Zone + error) (i : nat) (z : Zone)
  : option error * option Zone :=
  match Client_Zone (fetch i) (ZoneName z) with
  | inr errGet => (Some (Errorf (ZoneName z) errGet), None)
  | inl zone => (None, Some zone)
  end.

(** [errgroup.Group.Wait]: the error of the first goroutine, in order of
    completion, that returned one. *)
Fixpoint firstError (results : list (option error)) : option error :=
  match results with
  | [] => None
  | Some err :: _ => Some err
  | None :: rest => firstError rest
  end.

(** The writes [zones[i] = zone] of the goroutines that succeeded. *)
Fixpoint storeZones (fetch : nat -> string -> Zone + error) (i : nat)
    (zones : list Zone) : list Zone :=
  match zones with
  | [] => []
  | z :: rest =>
      match snd (zoneTask fetch i z) with
      | Some zone => zone :: storeZones fetch (S i) rest
      | None => z :: storeZones fetch (S i) rest
      end
  end.

(** [Client.AllZonesWithRecords]. [order] lists the goroutine indices in the
    order in which they complete. The nil slice is the empty list. *)
Definition AllZonesWithRecords (page : Z -> ListZones + error)
    (fetch : nat -> string -> Zone + error) (order : list nat)
  : list Zone * option error :=
  match AllZones page with
  | (_, Some err) => ([], Some (Errorf "all zones" err))
  | (zones, None) =>
      let result i :=
        match zones !! i with
        | Some z => fst (zoneTask fetch i z)
        | None => None
        end in
      match firstError (map result order) with
      | Some err => ([], Some (Errorf "zone info" err))
      | None => (storeZones fetch 0 zones, None)
      end
  end.

(** [DnsProvider.GetDomainFilter]; [listing] is the outcome of
    [p.client.AllZonesWithRecords(context.Background(), nil)]. The result is
    the filter's [Filters] field. *)
Definition GetDomainFilter (listing : list Zone * option error) : list string :=
  match listing with
  | (_, Some _) => []
  | (zs, None) => NewDomainFilter (flat_map (fun z => [ZoneName z; String.append "." (ZoneName z)]) zs)
  end.

(** ** The apply orchestrator ([DnsProvider.ApplyChanges]) *)

(** The two error groups of [ApplyChanges]. *)
Inductive group : Type := gr1 | gr2.

(** The loop that started a goroutine. *)
Inductive stage : Type := Teardown | StageDelete | StageCreate | UpdateAdd.

(** The call of the [dnsManager] interface a goroutine makes. *)
Inductive call : Type :=
| DeleteRRSetRecord (zone name recordType : string) (contents : list string)
| AddZoneRRSet (zone recordName recordType : string)
    (values : list ResourceRecord) (ttl : Z).

(** A closure handed to [gr.Go]: the call and the [errMsg] slice it joins. *)
Record task := {
  taskStage : stage;
  taskCall : call;
  taskErrMsg : list string
}.

Inductive logLevel : Type := LevelInfo | LevelDebug.

Definition logEntry : Type := (logLevel * string)%type.

(** The body of the four inner loops over the contents of one endpoint:
    [counter++], build [msg], in dry-run mode log it and [continue],
    otherwise log it at debug level and append to [recordValues] and
    [errMsg]. Returns the counter, the log lines, [recordValues], [errMsg]. *)
Fixpoint planContents {V : Type} (dryRun : bool) (mkMsg : string -> string)
    (mkValue : string -> V) (contents : list string) (counter : Z)
  : Z * list logEntry * list V * list string :=
  match contents with
  | [] => (counter, [], [], [])
  | content :: rest =>
      let counter := uint_incr counter in
      let msg := mkMsg content in
      let '(counter', logs, recordValues, errMsg) :=
        planContents dryRun mkMsg mkValue rest counter in
      if dryRun
      then (counter', (LevelInfo, String.append logDryRun msg) :: logs, recordValues, errMsg)
      else (counter', (LevelDebug, msg) :: logs, mkValue content :: recordValues, msg :: errMsg)
  end.

Definition fmtMsg (verb : string) (e : Endpoint) (content : string) : string :=
  String.append verb (String.append " " (String.append (DNSName e)
    (String.append " " (String.append (RecordType e) (String.append " " content))))).

(** First loop: "prepare zone to add changes by removing outdated records". *)
Fixpoint teardownLoop (dryRun : bool) (extractZone : string -> string)
    (updateOld : list Endpoint) (entries : list Endpoint) (updated : Z)
  : Z * list logEntry * list task :=
  match entries with
  | [] => (updated, [], [])
  | d :: rest =>
      let zone := extractZone (DNSName d) in
      if String.eqb zone "" then teardownLoop dryRun extractZone updateOld rest updated
      else
        let '(updated1, logs, recordValues, errMsg) :=
          planContents dryRun (fmtMsg "update old" d) (fun content => content)
            (unexistingTargets d updateOld false) updated in
        let '(updated2, logs', tasks) :=
          teardownLoop dryRun extractZone updateOld rest updated1 in
        if (length recordValues =? 0)%nat then (updated2, logs ++ logs', tasks)
        else (updated2, logs ++ logs',
              {| taskStage := Teardown;
                 taskCall := DeleteRRSetRecord zone (DNSName d) (RecordType d) recordValues;
                 taskErrMsg := errMsg |} :: tasks)
  end.

(** Second loop: "remove deleted records". *)
Fixpoint deleteLoop (dryRun : bool) (extractZone : string -> string)
    (entries : list Endpoint) (deleted : Z) : Z * list logEntry * list task :=
  match entries with
  | [] => (deleted, [], [])
  | d :: rest =>
      let zone := extractZone (DNSName d) in
      if String.eqb zone "" then deleteLoop dryRun extractZone rest deleted
      else
        let '(deleted1, logs, recordValues, errMsg) :=
          planContents dryRun (fmtMsg "delete" d) (fun content => content)
            (Targets d) deleted in
        let '(deleted2, logs', tasks) := deleteLoop dryRun extractZone rest deleted1 in
        (deleted2, logs ++ logs',
         {| taskStage := StageDelete;
            taskCall := DeleteRRSetRecord zone (DNSName d) (RecordType d) recordValues;
            taskErrMsg := errMsg |} :: tasks)
  end.

(** Third loop: "add created records". *)
Fixpoint createLoop (dryRun : bool) (extractZone : string -> string)
    (entries : list Endpoint) (created : Z) : Z * list logEntry * list task :=
  match entries with
  | [] => (created, [], [])
  | c :: rest =>
      let zone := extractZone (DNSName c) in
      if String.eqb zone "" || String.eqb (RecordType c) "TXT"
      then createLoop dryRun extractZone rest created
      else
        let '(created1, logs, recordValues, errMsg) :=
          planContents dryRun (fmtMsg "create" c) (newRecord (RecordType c))
            (Targets c) created in
        let '(created2, logs', tasks) := createLoop dryRun extractZone rest created1 in
        (created2, logs ++ logs',
         {| taskStage := StageCreate;
            taskCall := AddZoneRRSet zone (DNSName c) (RecordType c) recordValues (RecordTTL c);
            taskErrMsg := errMsg |} :: tasks)
  end.

(** Fourth loop, entered after [gr2.Wait()]: "add changes". *)
Fixpoint updateAddLoop (dryRun : bool) (extractZone : string -> string)
    (updateOld : list Endpoint) (entries : list Endpoint) (updated : Z)
  : Z * list logEntry * list task :=
  match entries with
  | [] => (updated, [], [])
  | c :: rest =>
      let zone := extractZone (DNSName c) in
      if String.eqb zone "" then updateAddLoop dryRun extractZone updateOld rest updated
      else
        let '(updated1, logs, recordValues, errMsg) :=
          planContents dryRun (fmtMsg "update new" c) (newRecord (RecordType c))
            (unexistingTargets c updateOld true) updated in
        let '(updated2, logs', tasks) :=
          updateAddLoop dryRun extractZone updateOld rest updated1 in
        if (length recordValues =? 0)%nat then (updated2, logs ++ logs', tasks)
        else (updated2, logs ++ logs',
              {| taskStage := UpdateAdd;
                 taskCall := AddZoneRRSet zone (DNSName c) (RecordType c) recordValues (RecordTTL c);
                 taskErrMsg := errMsg |} :: tasks)
  end.

(** [appliedChanges] *)
Record applied := {
  created : Z;
  deleted : Z;
  updated : Z
}.

(** Everything the sequential code of [ApplyChanges] computes: the
    goroutines of each loop in dispatch order, the lines logged before and
    after [gr2.Wait()], and the counters reported on success. *)
Record plan := {
  planTeardown : list task;
  planDelete : list task;
  planCreate : list task;
  planUpdateAdd : list task;
  planLogBefore : list logEntry;
  planLogAfter : list logEntry;
  planApplied : applied
}.

Definition planChanges (dryRun : bool) (listing : list Zone * option error)
    (changes : Changes) : plan :=
  let extractZone := zoneFromDNSNameGetter (GetDomainFilter listing) in
  let '(updated1, log1, teardown) :=
    teardownLoop dryRun extractZone (UpdateOld changes) (UpdateNew changes) 0 in
  let '(deleted1, log2, deletes) := deleteLoop dryRun extractZone (Delete changes) 0 in
  let '(created1, log3, creates) := createLoop dryRun extractZone (Create changes) 0 in
  let '(updated2, log4, adds) :=
    updateAddLoop dryRun extractZone (UpdateOld changes) (UpdateNew changes) updated1 in
  {| planTeardown := teardown; planDelete := deletes; planCreate := creates;
     planUpdateAdd := adds;
     planLogBefore := log1 ++ log2 ++ log3; planLogAfter := log4;
     planApplied := {| created := created1; deleted := deleted1; updated := updated2 |} |}.

(** The [gr.Go] calls made before [gr2.Wait()], in program order. *)
Definition dispatchedBeforeWait (p : plan) : list (group * task) :=
  map (fun t => (gr2, t)) (planTeardown p)
  ++ map (fun t => (gr1, t)) (planDelete p)
  ++ map (fun t => (gr1, t)) (planCreate p).

Definition runCall (c : call) : client (option error) :=
  match c with
  | DeleteRRSetRecord zone name recordType contents =>
      Client_DeleteRRSetRecord zone name recordType contents
  | AddZoneRRSet zone recordName recordType values ttl =>
      Client_AddZoneRRSet zone recordName recordType values ttl
  end.

(** The closure body: [errSafeWrap(strings.Join(errMsg, "; "), p.client.<call>)]. *)
Definition taskBody (t : task) : client (option error) :=
  bind (runCall (taskCall t)) (fun err =>
    Return (errSafeWrap (Join (taskErrMsg t) "; ") err)).

(** *** Interleaving semantics

    A goroutine is the rest of its closure; [gDone] is set once it has
    returned and reported to its group. *)
Record goroutine := {
  gGroup : group;
  gTask : task;
  gCode : client (option error);
  gDone : bool
}.

(** Where the calling goroutine of [ApplyChanges] stands: still issuing the
    [Go] calls that precede [gr2.Wait()] (at the wait once none is left),
    issuing those that precede [gr1.Wait()], or returned. *)
Inductive pc : Type :=
| BeforeWait2 (todo : list (group * task))
| BeforeWait1 (todo : list task)
| Returned (result : option error).

Record state {remote : Type} := {
  stRemote : remote;
  stPool : list goroutine;
  stErr1 : option error;
  stErr2 : option error;
  stMain : pc
}.
Arguments state remote : clear implicits.

Definition spawn (g : group) (t : task) : goroutine :=
  {| gGroup := g; gTask := t; gCode := taskBody t; gDone := false |}.

Definition resume (x : goroutine) (code : client (option error)) : goroutine :=
  {| gGroup := gGroup x; gTask := gTask x; gCode := code; gDone := gDone x |}.

Definition finish (x : goroutine) : goroutine :=
  {| gGroup := gGroup x; gTask := gTask x; gCode := gCode x; gDone := true |}.

(** [g.errOnce.Do(func() { g.err = err })] *)
Definition errOnce (current : option error) (err : option error) : option error :=
  match current with
  | Some e => Some e
  | None => err
  end.

Definition isGroup (g g' : group) : bool :=
  match g, g' with
  | gr1, gr1 => true
  | gr2, gr2 => true
  | _, _ => false
  end.

(** [g.wg.Wait()] returns when every goroutine of the group has returned. *)
Definition groupDone (g : group) (pool : list goroutine) : Prop :=
  Forall (fun x => isGroup (gGroup x) g = true -> gDone x = true) pool.

(** [fmt.Errorf("%s: apply changes: %w", ProviderName, err)] *)
Definition applyError (err : error) : error :=
  Errorf (String.append ProviderName ": apply changes") err.

(** One step of the system: the caller starts a goroutine, passes a
    [Wait], or a goroutine performs one request or returns. [later] are the
    goroutines of the fourth loop. *)
Inductive step {remote : Type} (serve : remote -> request -> response -> remote -> Prop)
    (later : list task) : state remote -> state remote -> Prop :=
| step_go2 r pool e1 e2 g t todo :
    step serve later
      {| stRemote := r; stPool := pool; stErr1 := e1; stErr2 := e2;
         stMain := BeforeWait2 ((g, t) :: todo) |}
      {| stRemote := r; stPool := pool ++ [spawn g t]; stErr1 := e1; stErr2 := e2;
         stMain := BeforeWait2 todo |}
| step_wait2_err r pool e1 err :
    groupDone gr2 pool ->
    step serve later
      {| stRemote := r; stPool := pool; stErr1 := e1; stErr2 := Some err;
         stMain := BeforeWait2 [] |}
      {| stRemote := r; stPool := pool; stErr1 := e1; stErr2 := Some err;
         stMain := Returned (Some (applyError err)) |}
| step_wait2_ok r pool e1 :
    groupDone gr2 pool ->
    step serve later
      {| stRemote := r; stPool := pool; stErr1 := e1; stErr2 := None;
         stMain := BeforeWait2 [] |}
      {| stRemote := r; stPool := pool; stErr1 := e1; stErr2 := None;
         stMain := BeforeWait1 later |}
| step_go1 r pool e1 e2 t todo :
    step serve later
      {| stRemote := r; stPool := pool; stErr1 := e1; stErr2 := e2;
         stMain := BeforeWait1 (t :: todo) |}
      {| stRemote := r; stPool := pool ++ [spawn gr1 t]; stErr1 := e1; stErr2 := e2;
         stMain := BeforeWait1 todo |}
| step_wait1 r pool e1 e2 :
    groupDone gr1 pool ->
    step serve later
      {| stRemote := r; stPool := pool; stErr1 := e1; stErr2 := e2;
         stMain := BeforeWait1 [] |}
      {| stRemote := r; stPool := pool; stErr1 := e1; stErr2 := e2;
         stMain := Returned (option_map applyError e1) |}
| step_http r r' pool i x req k resp e1 e2 main :
    pool !! i = Some x ->
    gDone x = false ->
    gCode x = Http req k ->
    serve r req resp r' ->
    step serve later
      {| stRemote := r; stPool := pool; stErr1 := e1; stErr2 := e2; stMain := main |}
      {| stRemote := r'; stPool := <[i := resume x (k resp)]> pool;
         stErr1 := e1; stErr2 := e2; stMain := main |}
| step_exit r pool i x err e1 e2 main :
    pool !! i = Some x ->
    gDone x = false ->
    gCode x = Return err ->
    step serve later
      {| stRemote := r; stPool := pool; stErr1 := e1; stErr2 := e2; stMain := main |}
      {| stRemote := r; stPool := <[i := finish x]> pool;
         stErr1 := if isGroup (gGroup x) gr1 then errOnce e1 err else e1;
         stErr2 := if isGroup (gGroup x) gr2 then errOnce e2 err else e2;
         stMain := main |}.

(** The state in which [ApplyChanges] starts on remote state [r]: returned
    at once when [!changes.HasChanges()], otherwise about to run the loops. *)
Definition ApplyChanges {remote : Type} (dryRun : bool)
    (listing : list Zone * option error) (changes : Changes) (r : remote)
  : state remote :=
  {| stRemote := r; stPool := []; stErr1 := None; stErr2 := None;
     stMain := if HasChanges changes
               then BeforeWait2 (dispatchedBeforeWait (planChanges dryRun listing changes))
               else Returned None |}.

(** The states [ApplyChanges] can reach against a server [serve]. *)
Definition reaches {remote : Type} (serve : remote -> request -> response -> remote -> Prop)
    (dryRun : bool) (listing : list Zone * option error) (changes : Changes)
    (r : remote) (s : state remote) : Prop :=
  rtc (step serve (planUpdateAdd (planChanges dryRun listing changes)))
      (ApplyChanges dryRun listing changes r) s.

(** *** An executable scheduler

    A schedule names, step by step, who moves: the caller of
    [ApplyChanges] or the goroutine at an index of the pool. It is run
    against a server given as a function. *)
Inductive action : Type :=
| Caller
| Goroutine (i : nat).

Definition groupDoneb (g : group) (pool : list goroutine) : bool :=
  forallb (fun x => implb (isGroup (gGroup x) g) (gDone x)) pool.

Definition callerStep {remote : Type} (later : list task) (s : state remote)
  : option (state remote) :=
  match stMain s with
  | BeforeWait2 ((g, t) :: todo) =>
      Some {| stRemote := stRemote s; stPool := stPool s ++ [spawn g t];
              stErr1 := stErr1 s; stErr2 := stErr2 s; stMain := BeforeWait2 todo |}
  | BeforeWait2 [] =>
      if groupDoneb gr2 (stPool s) then
        match stErr2 s with
        | Some err =>
            Some {| stRemote := stRemote s; stPool := stPool s;
                    stErr1 := stErr1 s; stErr2 := Some err;
                    stMain := Returned (Some (applyError err)) |}
        | None =>
            Some {| stRemote := stRemote s; stPool := stPool s;
                    stErr1 := stErr1 s; stErr2 := None; stMain := BeforeWait1 later |}
        end
      else None
  | BeforeWait1 (t :: todo) =>
      Some {| stRemote := stRemote s; stPool := stPool s ++ [spawn gr1 t];
              stErr1 := stErr1 s; stErr2 := stErr2 s; stMain := BeforeWait1 todo |}
  | BeforeWait1 [] =>
      if groupDoneb gr1 (stPool s) then
        Some {| stRemote := stRemote s; stPool := stPool s;
                stErr1 := stErr1 s; stErr2 := stErr2 s;
                stMain := Returned (option_map applyError (stErr1 s)) |}
      else None
  | Returned _ => None
  end.

Definition goroutineStep {remote : Type} (serveF : remote -> request -> response * remote)
    (i : nat) (s : state remote) : option (state remote) :=
  match stPool s !! i with
  | Some x =>
      if gDone x then None
      else match gCode x with
           | Http req k =>
               let '(resp, r') := serveF (stRemote s) req in
               Some {| stRemote := r'; stPool := <[i := resume x (k resp)]> (stPool s);
                       stErr1 := stErr1 s; stErr2 := stErr2 s; stMain := stMain s |}
           | Return err =>
               Some {| stRemote := stRemote s; stPool := <[i := finish x]> (stPool s);
                       stErr1 := if isGroup (gGroup x) gr1 then errOnce (stErr1 s) err
                                 else stErr1 s;
                       stErr2 := if isGroup (gGroup x) gr2 then errOnce (stErr2 s) err
                                 else stErr2 s;
                       stMain := stMain s |}
           end
  | None => None
  end.

Fixpoint runSchedule {remote : Type} (serveF : remote -> request -> response * remote)
    (later : list task) (schedule : list action) (s : state remote)
  : option (state remote) :=
  match schedule with
  | [] => Some s
  | Caller :: rest =>
      match callerStep later s with
      | Some s' => runSchedule serveF later rest s'
      | None => None
      end
  | Goroutine i :: rest =>
      match goroutineStep serveF i s with
      | Some s' => runSchedule serveF later rest s'
      | None => None
      end
  end.

(** The server relation of a server function. *)
Definition served {remote : Type} (serveF : remote -> request -> response * remote)
    (r : remote) (req : request) (resp : response) (r' : remote) : Prop :=
  serveF r req = (resp, r').


(** *** A remote that answers every request

    The server keeps one RRSet per resource. GET answers 404 for an absent
    resource, POST and PUT store the body, DELETE removes the resource and
    answers 404 when there is none. *)
Definition idealServe (store : gmap uri RRSet) (req : request)
  : response * gmap uri RRSet :=
  match req with
  | ReqGet u =>
      match store !! u with
      | Some rrSet => (RespRRSet rrSet, store)
      | None => (RespErr (APIError StatusNotFound "not found"), store)
      end
  | ReqPost u body => (RespOK, <[u := body]> store)
  | ReqPut u body => (RespOK, <[u := body]> store)
  | ReqDelete u =>
      match store !! u with
      | Some _ => (RespOK, delete u store)
      | None => (RespErr (APIError StatusNotFound "not found"), store)
      end
  end.



(** ** Statement vocabulary *)

(** The labels of a record name: the dot-trimmed name split on dots. *)
Definition labels (name : string) : list string := Split (Trim name dot) dot.

(** The suffix of [name] that starts at label [i]. *)
Definition suffixAt (name : string) (i : nat) : string := Join (drop i (labels name)) ".".

(** *** The resolver's contract in its own words

    The vocabulary below speaks of strings through concatenation only; it
    does not mention [Trim], [Split] or [Join]. *)

(** [s] consists of dots. *)
Fixpoint onlyDots (s : string) : Prop :=
  match s with
  | EmptyString => True
  | String a s' => a = dot /\ onlyDots s'
  end.

Definition startsWithDot (s : string) : Prop := exists r, s = String dot r.

Definition endsWithDot (s : string) : Prop := exists r, s = String.append r ".".

(** [t] is [s] without its leading and trailing dots. *)
Definition trimmedOf (s t : string) : Prop :=
  exists d1 d2,
    s = String.append d1 (String.append t d2)
    /\ onlyDots d1 /\ onlyDots d2
    /\ ~ startsWithDot t /\ ~ endsWithDot t.

(** [s] is [t] or what follows one of the dots of [t]. *)
Definition dotSuffix (t s : string) : Prop :=
  s = t \/ exists pre, t = String.append pre (String.append "." s).

(** [s] has a dot, that is at least two labels. *)
Definition hasDot (s : string) : Prop :=
  exists a b, s = String.append a (String.append "." b).

(** [s] is a candidate zone of the dot-trimmed name [trimmed]: a suffix of
    at least two labels that is in the zone set [filters]. *)
Definition zoneCandidate (filters : list string) (trimmed s : string) : Prop :=
  dotSuffix trimmed s /\ hasDot s /\ s ∈ filters.

(** [compare] has the record type and the name of [existing]. *)
Definition sameRecord (existing compare : Endpoint) : Prop :=
  RecordType compare = RecordType existing /\ DNSName compare = DNSName existing.

(** The elements of [from], in order, that do not occur in [against]. *)
Definition absentFrom (from against : list string) : list string :=
  filter (fun t => t ∉ against) from.

(** The [Go] calls made so far: group and closure of each goroutine. *)
Definition dispatched (pool : list goroutine) : list (group * task) :=
  map (fun x => (gGroup x, gTask x)) pool.

Definition inGroup1 (ts : list task) : list (group * task) := map (fun t => (gr1, t)) ts.

(** A goroutine of group [g] that returned [err]. *)
Definition returnedBy (g : group) (err : error) (pool : list goroutine) : Prop :=
  exists x, x ∈ pool /\ gGroup x = g /\ gDone x = true /\ gCode x = Return (Some err).

(** Where the caller stands relative to the goroutines started: [before]
    are the [Go] calls that precede [gr2.Wait()], [later] the closures of the
    fourth loop. *)
Definition callerInv {remote : Type} (before : list (group * task)) (later : list task)
    (s : state remote) : Prop :=
  match stMain s with
  | BeforeWait2 todo => dispatched (stPool s) ++ todo = before
  | BeforeWait1 todo =>
      dispatched (stPool s) ++ inGroup1 todo = before ++ inGroup1 later
      /\ groupDone gr2 (stPool s) /\ stErr2 s = None
  | Returned res =>
      (stPool s = [] /\ res = None)
      \/ (dispatched (stPool s) = before
          /\ exists e, stErr2 s = Some e /\ res = Some (applyError e))
      \/ (dispatched (stPool s) = before ++ inGroup1 later
          /\ groupDone gr2 (stPool s) /\ groupDone gr1 (stPool s)
          /\ stErr2 s = None /\ res = option_map applyError (stErr1 s))
  end.

Definition errorsInv {remote : Type} (s : state remote) : Prop :=
  (forall e, stErr1 s = Some e -> returnedBy gr1 e (stPool s))
  /\ (forall e, stErr2 s = Some e -> returnedBy gr2 e (stPool s)).


(** The closure of a goroutine ends by wrapping the error of its call with
    its joined [errMsg]. *)
Definition codeWraps (x : goroutine) : Prop :=
  exists m, gCode x
            = bind m (fun err => Return (errSafeWrap (Join (taskErrMsg (gTask x)) "; ") err)).


(** The state a schedule leads to ([s] itself when the schedule is stuck). *)
Definition afterSchedule {remote : Type} (serveF : remote -> request -> response * remote)
    (later : list task) (schedule : list action) (s : state remote) : state remote :=
  match runSchedule serveF later schedule s with
  | Some s' => s'
  | None => s
  end.


(** *** One resource at a time

    Each goroutine works on one resource of the remote; the statements about
    the remote's content follow a resource through the goroutines that
    touch it. *)
Definition requestURI (req : request) : uri :=
  match req with
  | ReqGet u => u
  | ReqPost u _ => u
  | ReqPut u _ => u
  | ReqDelete u => u
  end.

Definition callURI (c : call) : uri :=
  match c with
  | DeleteRRSetRecord zone name recordType _ => rrsetURI zone name recordType
  | AddZoneRRSet zone recordName recordType _ _ => rrsetURI zone recordName recordType
  end.

Definition taskURI (t : task) : uri := callURI (taskCall t).

(** The resource an endpoint lives at, once its zone is resolved. *)
Definition endpointURI (extractZone : string -> string) (e : Endpoint) : uri :=
  rrsetURI (extractZone (DNSName e)) (DNSName e) (RecordType e).

(** [idealServe] seen from one resource. *)
Definition entryServe (entry : option RRSet) (req : request) : response * option RRSet :=
  match req with
  | ReqGet _ =>
      match entry with
      | Some rrSet => (RespRRSet rrSet, entry)
      | None => (RespErr (APIError StatusNotFound "not found"), entry)
      end
  | ReqPost _ body => (RespOK, Some body)
  | ReqPut _ body => (RespOK, Some body)
  | ReqDelete _ =>
      match entry with
      | Some _ => (RespOK, None)
      | None => (RespErr (APIError StatusNotFound "not found"), None)
      end
  end.

(** The resource after a client method has run on it alone. *)
Definition entryAfter {A : Type} (m : client A) (entry : option RRSet) : option RRSet :=
  (exec entryServe m entry).1.2.

(** The resource after the closures of [ts] that work on it have run, one
    after the other. *)
Fixpoint afterTasks (u : uri) (ts : list task) (entry : option RRSet) : option RRSet :=
  match ts with
  | [] => entry
  | t :: rest =>
      afterTasks u rest (if decide (taskURI t = u) then entryAfter (taskBody t) entry
                         else entry)
  end.

(** The closures the caller has still to start. *)
Definition pendingMain (later : list task) (main : pc) : list task :=
  match main with
  | BeforeWait2 todo => (snd <$> todo) ++ later
  | BeforeWait1 todo => todo
  | Returned _ => []
  end.

(** Every request of a client method is on [u]. *)
Inductive onURI {A : Type} (u : uri) : client A -> Prop :=
| onURI_Return a : onURI u (Return a)
| onURI_Http req k :
    requestURI req = u -> (forall resp, onURI u (k resp)) -> onURI u (Http req k).


(** While no teardown goroutine has failed: a running goroutine, followed
    by the closures still to start, takes its resource to [final]; and so do
    the closures still to start for a resource no running goroutine works on. *)
Definition entriesInv (final : uri -> option RRSet) (later : list task)
    (s : state (gmap uri RRSet)) : Prop :=
  stErr2 s = None ->
  (forall i x, stPool s !! i = Some x -> gDone x = false ->
     afterTasks (taskURI (gTask x)) (pendingMain later (stMain s))
       (entryAfter (gCode x) (stRemote s !! taskURI (gTask x)))
     = final (taskURI (gTask x)))
  /\ (forall u, (forall x, x ∈ stPool s -> taskURI (gTask x) = u -> gDone x = true) ->
        afterTasks u (pendingMain later (stMain s)) (stRemote s !! u) = final u).

(** No two running goroutines work on the same resource. *)
Definition soloInv {remote : Type} (s : state remote) : Prop :=
  forall i j x y,
    stPool s !! i = Some x -> stPool s !! j = Some y ->
    gDone x = false -> gDone y = false ->
    taskURI (gTask x) = taskURI (gTask y) -> i = j.

Definition localInv {remote : Type} (s : state remote) : Prop :=
  Forall (fun x => onURI (taskURI (gTask x)) (gCode x)) (stPool s).

(** The closures started in group [gr1]. *)
Definition group1Tasks (ds : list (group * task)) : list task :=
  snd <$> filter (fun d => isGroup (fst d) gr1 = true) ds.



(** No running goroutine works on the resource of [t]. *)
Definition freshFor (t : task) (pool : list goroutine) : Prop :=
  forall x, x ∈ pool -> gDone x = false -> taskURI (gTask x) <> taskURI t.

(** The closure the caller is about to start, if any, finds its resource free. *)
Definition dispatchFresh {remote : Type} (s : state remote) : Prop :=
  match stMain s with
  | BeforeWait2 ((_, t) :: _) => freshFor t (stPool s)
  | BeforeWait1 (t :: _) => freshFor t (stPool s)
  | _ => True
  end.


(** *** The closure each loop starts for one entry, in a live run *)

Definition hasZone (extractZone : string -> string) (e : Endpoint) : bool :=
  negb (String.eqb (extractZone (DNSName e)) "").

Definition teardownTask (extractZone : string -> string) (updateOld : list Endpoint)
    (d : Endpoint) : option task :=
  let stale := unexistingTargets d updateOld false in
  if hasZone extractZone d && negb (length stale =? 0)%nat
  then Some {| taskStage := Teardown;
               taskCall := DeleteRRSetRecord (extractZone (DNSName d)) (DNSName d)
                             (RecordType d) stale;
               taskErrMsg := map (fmtMsg "update old" d) stale |}
  else None.

Definition deleteTask (extractZone : string -> string) (d : Endpoint) : option task :=
  if hasZone extractZone d
  then Some {| taskStage := StageDelete;
               taskCall := DeleteRRSetRecord (extractZone (DNSName d)) (DNSName d)
                             (RecordType d) (Targets d);
               taskErrMsg := map (fmtMsg "delete" d) (Targets d) |}
  else None.

Definition createTask (extractZone : string -> string) (c : Endpoint) : option task :=
  if hasZone extractZone c && negb (String.eqb (RecordType c) "TXT")
  then Some {| taskStage := StageCreate;
               taskCall := AddZoneRRSet (extractZone (DNSName c)) (DNSName c) (RecordType c)
                             (map (newRecord (RecordType c)) (Targets c)) (RecordTTL c);
               taskErrMsg := map (fmtMsg "create" c) (Targets c) |}
  else None.

Definition updateAddTask (extractZone : string -> string) (updateOld : list Endpoint)
    (c : Endpoint) : option task :=
  let fresh := unexistingTargets c updateOld true in
  if hasZone extractZone c && negb (length fresh =? 0)%nat
  then Some {| taskStage := UpdateAdd;
               taskCall := AddZoneRRSet (extractZone (DNSName c)) (DNSName c) (RecordType c)
                             (map (newRecord (RecordType c)) fresh) (RecordTTL c);
               taskErrMsg := map (fmtMsg "update new" c) fresh |}
  else None.

(** [n] increments of a [uint] counter. *)
Definition uint_add (n : nat) (counter : Z) : Z := Nat.iter n uint_incr counter.

(** The line a dry run logs in place of a debug line. *)
Definition dryRunLine (entry : logEntry) : logEntry :=
  (LevelInfo, String.append logDryRun (snd entry)).


(** A task made for an entry works on the entry's resource. *)
Definition atEntry (extractZone : string -> string) (f : Endpoint -> option task) : Prop :=
  forall e t, f e = Some t -> taskURI t = endpointURI extractZone e.


End Provider.

Arguments state {ext} remote.
Arguments Return {ext A} a.
Arguments Http {ext A} req k.

(** ** Sample data

    An implementation of the interface for record types whose content is
    the value itself ([RecordTypeAny.ToContent] of the SDK: [[]any{value}],
    printed back by joining with spaces), with the identity for the filter
    normalisation and a change set that always has changes. *)
Definition plainExternal : External :=
  {| any := string;
     ContentFromValue := fun _ content => [content];
     ContentToString := fun content => Join content " ";
     NewDomainFilter := fun domains => domains;
     HasChanges := fun _ => true |}.

(** The names of two zones, one inside the other, as [GetDomainFilter]
    lists them: with and without a leading dot. *)
Definition sampleZones : list string :=
  ["example.com"; ".example.com"; "b.example.com"; ".b.example.com"].

Definition sampleListing : list Zone * option error :=
  ([{| ZoneName := "example.com"; ZoneRecords := [] |}], None).

Definition sampleEndpoint (name : string) (targets : list string) : Endpoint :=
  {| DNSName := name; Targets := targets; RecordType := "A"; RecordTTL := 300 |}.

(** An update of [a.example.com] from 1.1.1.1 to 2.2.2.2. *)
Definition updateChanges : Changes :=
  {| Create := [];
     UpdateOld := [sampleEndpoint "a.example.com" ["1.1.1.1"]];
     UpdateNew := [sampleEndpoint "a.example.com" ["2.2.2.2"]];
     Delete := [] |}.

(** The same update together with the deletion of [b.example.com]. *)
Definition updateAndDelete : Changes :=
  {| Create := [];
     UpdateOld := [sampleEndpoint "a.example.com" ["1.1.1.1"]];
     UpdateNew := [sampleEndpoint "a.example.com" ["2.2.2.2"]];
     Delete := [sampleEndpoint "b.example.com" ["3.3.3.3"]] |}.

(** An update that only reorders the targets. *)
Definition reorderChanges : Changes :=
  {| Create := [];
     UpdateOld := [sampleEndpoint "a.example.com" ["1.1.1.1"; "2.2.2.2"]];
     UpdateNew := [sampleEndpoint "a.example.com" ["2.2.2.2"; "1.1.1.1"]];
     Delete := [] |}.

(** The creation of [a.example.com] and the deletion of [b.example.com]. *)
Definition createAndDelete : Changes :=
  {| Create := [sampleEndpoint "a.example.com" ["1.2.3.4"]];
     UpdateOld := [];
     UpdateNew := [];
     Delete := [sampleEndpoint "b.example.com" ["3.3.3.3"]] |}.

(** The creation of a TXT record. *)
Definition createTXT : Changes :=
  {| Create := [{| DNSName := "a.example.com"; Targets := ["heritage=external-dns"];
                   RecordType := "TXT"; RecordTTL := 300 |}];
     UpdateOld := [];
     UpdateNew := [];
     Delete := [] |}.

Definition sampleRRSet (ttl : Z) (values : list string) : @RRSet plainExternal :=
  {| RRType := ""; TTL := ttl;
     Records := map (@newRecord plainExternal "A") values;
     Filters := []; RRMeta := [] |}.

Definition uriA : uri := ("example.com", "a.example.com", "A").
Definition uriB : uri := ("example.com", "b.example.com", "A").

(** A remote holding 1.1.1.1 for [a.example.com]. *)
Definition storeA : gmap uri (@RRSet plainExternal) := {[ uriA := sampleRRSet 300 ["1.1.1.1"] ]}.

(** A remote holding 3.3.3.3 for [b.example.com]. *)
Definition storeB : gmap uri (@RRSet plainExternal) := {[ uriB := sampleRRSet 300 ["3.3.3.3"] ]}.

(** A remote holding an RRSet without records for [a.example.com]. *)
Definition storeEmptyRRSet : gmap uri (@RRSet plainExternal) :=
  {[ uriA := sampleRRSet 300 [] ]}.

(** A remote that fails every request. *)
Definition brokenServe (r : unit) (req : @request plainExternal)
  : @response plainExternal * unit :=
  (RespErr (OtherError "connection refused"), r).

(** The teardown goroutine of [updateAndDelete] fails while the delete
    goroutine has been started: both [Go] calls, the teardown goroutine's
    GET and return, then the caller's [gr2.Wait()]. *)
Definition failedTeardown : @state plainExternal unit :=
  afterSchedule brokenServe
    (planUpdateAdd (planChanges false sampleListing updateAndDelete))
    [Caller; Caller; Goroutine 0; Goroutine 0; Caller]
    (ApplyChanges false sampleListing updateAndDelete tt).

(** The update of [updateChanges] on [storeA] up to the [Go] call of the
    fourth loop: the teardown goroutine's GET, DELETE and return, the
    caller's [gr2.Wait()] and [gr1.Go]. *)
Definition updateAddStarted : @state plainExternal (gmap uri (@RRSet plainExternal)) :=
  afterSchedule idealServe
    (planUpdateAdd (planChanges false sampleListing updateChanges))
    [Caller; Goroutine 0; Goroutine 0; Goroutine 0; Caller; Caller]
    (ApplyChanges false sampleListing updateChanges storeA).

(** A complete dry run of [createAndDelete] on [storeB]. *)
Definition dryRunDone : @state plainExternal (gmap uri (@RRSet plainExternal)) :=
  afterSchedule idealServe
    (planUpdateAdd (planChanges true sampleListing createAndDelete))
    [Caller; Caller; Goroutine 0; Goroutine 0; Goroutine 0;
     Goroutine 1; Goroutine 1; Goroutine 1; Caller; Caller]
    (ApplyChanges true sampleListing createAndDelete storeB).

(** A complete live run of [createTXT] on the empty remote. *)
Definition createTXTDone : @state plainExternal (gmap uri (@RRSet plainExternal)) :=
  afterSchedule idealServe
    (planUpdateAdd (planChanges false sampleListing createTXT))
    [Caller; Caller]
    (ApplyChanges false sampleListing createTXT ∅).

(** Two zones, the detail fetch of the second failing. *)
Definition twoZones : list Zone :=
  [{| ZoneName := "example.com"; ZoneRecords := [] |};
   {| ZoneName := "example.org."; ZoneRecords := [] |}].

Definition twoZonesPage (offset : Z) : ListZones + error :=
  inl {| LZZones := twoZones; LZTotalAmount := 2; LZError := "" |}.

Definition secondFetchFails (i : nat) (name : string) : Zone + error :=
  if (i =? 1)%nat then inr (APIError 500 "internal error")
  else inl {| ZoneName := name;
              ZoneRecords := [{| ZRName := name; ZRType := "A"; ZRTTL := 300;
                                 ShortAnswers := ["1.1.1.1"] |}] |}.


(** A complete live run of [updateChanges] on [storeA]: the teardown
    goroutine's GET, DELETE and return, the caller's [gr2.Wait()] and
    [gr1.Go], the adding goroutine's GET, POST and return, [gr1.Wait()]. *)
Definition updateDone : @state plainExternal (gmap uri (@RRSet plainExternal)) :=
  afterSchedule idealServe
    (planUpdateAdd (planChanges false sampleListing updateChanges))
    [Caller; Goroutine 0; Goroutine 0; Goroutine 0; Caller; Caller;
     Goroutine 1; Goroutine 1; Goroutine 1; Caller]
    (ApplyChanges false sampleListing updateChanges storeA).



(** The TXT entry of [createTXT]. *)
Definition ownerTXT : Endpoint :=
  {| DNSName := "a.example.com"; Targets := ["heritage=external-dns"];
     RecordType := "TXT"; RecordTTL := 300 |}.

Section Properties.

Context {ext : External}.

(** ** Properties of the content differ *)

Lemma targetExists_elem fromTar targets :
  targetExists fromTar targets = true <-> fromTar ∈ targets.
Proof.
  induction targets as [|curTar rest IH]; simpl.
  - split; [discriminate | intros H; inversion H].
  - destruct (String.eqb_spec curTar fromTar) as [->|Hne].
    + split; [intros _; left | reflexivity].
    + rewrite IH. split; [intros H; right; exact H |].
      intros H. inversion H; subst; [congruence | assumption].
Qed.

Lemma missingFrom_absentFrom from against :
  missingFrom from against = absentFrom from against.
Proof.
  unfold absentFrom. induction from as [|t rest IH]; simpl; [reflexivity |].
  destruct (targetExists t against) eqn:E.
  - apply targetExists_elem in E. rewrite filter_cons_False; [exact IH | tauto].
  - rewrite filter_cons_True; [now rewrite IH |].
    intros Hin. apply targetExists_elem in Hin. congruence.
Qed.

Lemma sameRecord_test existing compare :
  negb (String.eqb (RecordType compare) (RecordType existing))
  || negb (String.eqb (DNSName compare) (DNSName existing)) = false
  <-> sameRecord existing compare.
Proof.
  unfold sameRecord.
  destruct (String.eqb_spec (RecordType compare) (RecordType existing));
    destruct (String.eqb_spec (DNSName compare) (DNSName existing));
    simpl; split; intros H; try discriminate; try tauto; try reflexivity.
Qed.

(** C5. [unexistingTargets] takes the first candidate with the record type
    and name of [existing]; without one the result is empty; with one it is
    the targets of [existing] absent from the candidate when
    [diffFromExisting] is set, and the targets of the candidate absent from
    [existing] otherwise. *)
Theorem unexistingTargets_first_match (existing : Endpoint)
    (candidates : list Endpoint) (diffFromExisting : bool) :
  (Forall (fun c => ~ sameRecord existing c) candidates
   /\ unexistingTargets existing candidates diffFromExisting = [])
  \/ (exists before matched after,
        candidates = before ++ matched :: after
        /\ Forall (fun c => ~ sameRecord existing c) before
        /\ sameRecord existing matched
        /\ unexistingTargets existing candidates diffFromExisting
           = if diffFromExisting
             then absentFrom (Targets existing) (Targets matched)
             else absentFrom (Targets matched) (Targets existing)).
Proof.
  induction candidates as [|c rest IH].
  - left. split; [constructor | reflexivity].
  - simpl.
    destruct (negb (String.eqb (RecordType c) (RecordType existing))
              || negb (String.eqb (DNSName c) (DNSName existing))) eqn:E.
    + assert (Hc : ~ sameRecord existing c).
      { intros H. apply sameRecord_test in H. congruence. }
      destruct IH as [[Hall Hnil] | (before & m & after & -> & Hall & Hm & Hres)].
      * left. split; [constructor; assumption | assumption].
      * right. exists (c :: before), m, after.
        repeat split; try apply Hm; [constructor; assumption | exact Hres].
    + apply sameRecord_test in E. right. exists [], c, rest.
      repeat split; try apply E; [constructor |].
      destruct diffFromExisting; apply missingFrom_absentFrom.
Qed.

(** ** Properties of the zone resolver *)

Lemma searchMap_fold (filters : list string) (m : gmap string string) (k : string) :
  foldl (fun search zone => <[zone := Trim zone dot]> search) m filters !! k
  = if decide (k ∈ filters) then Some (Trim k dot) else m !! k.
Proof.
  revert m. induction filters as [|z rest IH]; intros m; simpl.
  - destruct (decide (k ∈ [])) as [H|H]; [inversion H | reflexivity].
  - rewrite IH. destruct (decide (k ∈ rest)) as [Hin|Hnin].
    + rewrite decide_True; [reflexivity | now right].
    + destruct (decide (k = z)) as [->|Hne].
      * rewrite decide_True; [| now left]. now rewrite lookup_insert_eq.
      * rewrite decide_False; [now rewrite lookup_insert_ne |].
        intros H. inversion H; subst; tauto.
Qed.

Lemma searchMap_lookup (filters : list string) (k : string) :
  searchMap filters !! k = if decide (k ∈ filters) then Some (Trim k dot) else None.
Proof. unfold searchMap. rewrite searchMap_fold. now rewrite lookup_empty. Qed.

Lemma firstZone_seq (filters : list string) (f : nat -> string) (n a : nat) :
  (firstZone (searchMap filters) (map f (seq a n)) = ""
   /\ forall i, a <= i < a + n -> f i ∉ filters)
  \/ (exists i, a <= i < a + n /\ f i ∈ filters
        /\ (forall j, a <= j < i -> f j ∉ filters)
        /\ firstZone (searchMap filters) (map f (seq a n)) = Trim (f i) dot).
Proof.
  revert a. induction n as [|n IH]; intros a; simpl.
  - left. split; [reflexivity | intros i Hi; lia].
  - rewrite searchMap_lookup. destruct (decide (f a ∈ filters)) as [Hin|Hnin].
    + right. exists a. repeat split; try lia; try assumption.
    + destruct (IH (S a)) as [[Hnil Hall] | (i & Hi & Hin & Hmin & Hres)].
      * left. split; [assumption |]. intros i Hi.
        destruct (decide (i = a)) as [->|]; [assumption | apply Hall; lia].
      * right. exists i. repeat split; try lia; try assumption.
        intros j Hj. destruct (decide (j = a)) as [->|]; [assumption | apply Hmin; lia].
Qed.

Lemma Split_nonempty s c : Split s c <> [].
Proof.
  induction s as [|a s IH]; simpl; [discriminate |].
  destruct (Ascii.eqb a c); [discriminate |].
  destruct (Split s c); [discriminate | discriminate].
Qed.

Lemma Join_cons2 p q ps sep :
  Join (p :: q :: ps) sep = String.append p (String.append sep (Join (q :: ps) sep)).
Proof. reflexivity. Qed.

Lemma Join_String a p ps sep :
  Join (String a p :: ps) sep = String a (Join (p :: ps) sep).
Proof. destruct ps; reflexivity. Qed.

Lemma Join_Split s : Join (Split s dot) "." = s.
Proof.
  induction s as [|a s IH]; simpl; [reflexivity |].
  destruct (Ascii.eqb_spec a dot) as [->|Hne].
  - destruct (Split s dot) as [|p ps] eqn:E; [now apply Split_nonempty in E |].
    rewrite Join_cons2, IH. reflexivity.
  - destruct (Split s dot) as [|p ps] eqn:E; [now apply Split_nonempty in E |].
    rewrite Join_String, IH. reflexivity.
Qed.

Lemma append_String a (s t : string) :
  String.append (String a s) t = String a (String.append s t).
Proof. reflexivity. Qed.

Lemma append_assoc (a b c : string) :
  String.append (String.append a b) c = String.append a (String.append b c).
Proof.
  induction a as [|x a IH]; [reflexivity |].
  rewrite !append_String. now rewrite IH.
Qed.

Lemma append_length (a b : string) :
  String.length (String.append a b) = String.length a + String.length b.
Proof.
  induction a as [|x a IH]; [reflexivity |].
  rewrite append_String. simpl. now rewrite IH.
Qed.

Lemma Join_drop_suffix (parts : list string) (i : nat) :
  i < length parts ->
  exists pre, Join parts "." = String.append pre (Join (drop i parts) ".").
Proof.
  revert parts. induction i as [|i IH]; intros parts Hi.
  - exists "". rewrite drop_0. reflexivity.
  - destruct parts as [|p [|q ps]]; simpl in Hi; try lia.
    destruct (IH (q :: ps)) as [pre Hpre]; [simpl; lia |].
    exists (String.append p (String.append "." pre)).
    rewrite Join_cons2, Hpre, !append_assoc. reflexivity.
Qed.

Lemma Join_drop_step (parts : list string) (i : nat) :
  S i < length parts ->
  String.length (Join (drop (S i) parts) ".") < String.length (Join (drop i parts) ".").
Proof.
  intros Hi.
  destruct (lookup_lt_is_Some_2 parts i) as [p Hp]; [lia |].
  destruct (lookup_lt_is_Some_2 parts (S i)) as [q Hq]; [lia |].
  rewrite (drop_S _ _ _ Hp), (drop_S _ _ _ Hq), Join_cons2, !append_length.
  simpl String.length. lia.
Qed.

Lemma Join_drop_length (parts : list string) (i j : nat) :
  j < i -> i < length parts ->
  String.length (Join (drop i parts) ".") < String.length (Join (drop j parts) ".").
Proof.
  induction i as [|i IH]; intros Hji Hi; [lia |].
  pose proof (Join_drop_step parts i Hi) as Hstep.
  destruct (decide (j = i)) as [->|Hne]; [exact Hstep |].
  etransitivity; [exact Hstep | apply IH; lia].
Qed.

Lemma TrimRight_empty_TrimLeft s c : TrimRight s c = "" -> TrimLeft s c = "".
Proof.
  induction s as [|a s IH]; simpl; [reflexivity |].
  destruct (TrimRight s c) eqn:E; [| discriminate].
  destruct (Ascii.eqb a c); [intros _; now apply IH | discriminate].
Qed.

Lemma TrimLeft_idem s c : TrimLeft (TrimLeft s c) c = TrimLeft s c.
Proof.
  induction s as [|a s IH]; simpl; [reflexivity |].
  destruct (Ascii.eqb a c) eqn:E; [exact IH | simpl; now rewrite E].
Qed.

Lemma TrimLeft_empty_ends s c :
  TrimLeft s c = "" -> s = "" \/ exists pre, s = String.append pre (String c "").
Proof.
  induction s as [|a s IH]; simpl; [now left |].
  destruct (Ascii.eqb_spec a c) as [->|Hne]; [| discriminate].
  intros H. right. destruct (IH H) as [->|[pre ->]].
  - now exists "".
  - now exists (String c pre).
Qed.

Lemma TrimRight_not_ends s c pre : TrimRight s c <> String.append pre (String c "").
Proof.
  revert pre. induction s as [|a s IH]; intros pre; simpl.
  - destruct pre; discriminate.
  - destruct (TrimRight s c) as [|b t] eqn:E.
    + destruct (Ascii.eqb_spec a c) as [->|Hne].
      * destruct pre; discriminate.
      * destruct pre as [|x [|y pre]]; rewrite ?append_String;
          [ change (String.append "" (String c "")) with (String c ""); congruence
          | discriminate | discriminate ].
    + destruct pre as [|x pre]; rewrite ?append_String; simpl; [discriminate |].
      intros H. injection H as -> H. now apply IH in H.
Qed.

Lemma Trim_suffix_nonempty name x pre :
  Trim name dot = String.append pre x -> x <> "" -> Trim x dot <> "".
Proof.
  intros HT Hx Htrim. unfold Trim in Htrim.
  apply TrimRight_empty_TrimLeft in Htrim. rewrite TrimLeft_idem in Htrim.
  apply TrimLeft_empty_ends in Htrim as [->|[pre' ->]]; [congruence |].
  rewrite <- append_assoc in HT. unfold Trim in HT.
  now apply TrimRight_not_ends in HT.
Qed.

Lemma Join_two_nonempty p q ps : Join (p :: q :: ps) "." <> "".
Proof.
  rewrite Join_cons2. intros H. apply (f_equal String.length) in H.
  rewrite !append_length in H. simpl in H. lia.
Qed.

Lemma extractAllZones_suffixes name :
  extractAllZones name
  = if (length (labels name) <? 2)%nat then []
    else map (suffixAt name) (seq 0 (length (labels name) - 1)).
Proof. reflexivity. Qed.

(** The resolver through the labels of the name: it returns the first
    suffix of at least two labels that is in [filters], dot-trimmed; the
    suffixes get strictly shorter, and a match is never rendered as the
    empty string. *)
Lemma resolver_by_labels (filters : list string) (name : string) :
  let resolve := zoneFromDNSNameGetter filters in
  let n := length (labels name) in
  (forall i j, j < i -> i + 2 <= n ->
     String.length (suffixAt name i) < String.length (suffixAt name j))
  /\ (forall i, i + 2 <= n ->
        exists pre, Trim name dot = String.append pre (suffixAt name i))
  /\ ((resolve name = "" /\ forall i, i + 2 <= n -> suffixAt name i ∉ filters)
      \/ (exists i, i + 2 <= n
            /\ suffixAt name i ∈ filters
            /\ (forall j, j < i -> suffixAt name j ∉ filters)
            /\ resolve name = Trim (suffixAt name i) dot
            /\ resolve name <> ""))
  /\ (n < 2 -> resolve name = "").
Proof.
  intros resolve n.
  assert (Hsuf : forall i, i + 2 <= n ->
            exists pre, Trim name dot = String.append pre (suffixAt name i)).
  { intros i Hi. unfold suffixAt.
    destruct (Join_drop_suffix (labels name) i) as [pre Hpre]; [fold n; lia |].
    exists pre. rewrite <- Hpre. unfold labels. now rewrite Join_Split. }
  split; [| split; [exact Hsuf | split]].
  - intros i j Hji Hi. apply Join_drop_length; [exact Hji | fold n; lia].
  - unfold resolve, zoneFromDNSNameGetter. rewrite extractAllZones_suffixes. fold n.
    destruct (n <? 2)%nat eqn:En.
    + apply Nat.ltb_lt in En. left. split; [reflexivity | intros i Hi; lia].
    + apply Nat.ltb_ge in En.
      destruct (firstZone_seq filters (suffixAt name) (n - 1) 0)
        as [[Hnil Hall] | (i & Hi & Hin & Hmin & Hres)].
      * left. split; [exact Hnil | intros i Hi; apply Hall; lia].
      * right. exists i. split; [lia |]. split; [exact Hin |].
        split; [intros j Hj; apply Hmin; lia |]. split; [exact Hres |].
        rewrite Hres. destruct (Hsuf i) as [pre Hpre]; [lia |].
        apply (Trim_suffix_nonempty name _ pre Hpre).
        unfold suffixAt.
        destruct (lookup_lt_is_Some_2 (labels name) i) as [p Hp]; [fold n; lia |].
        destruct (lookup_lt_is_Some_2 (labels name) (S i)) as [q Hq]; [fold n; lia |].
        rewrite (drop_S _ _ _ Hp), (drop_S _ _ _ Hq). apply Join_two_nonempty.
  - intros Hn. unfold resolve, zoneFromDNSNameGetter. rewrite extractAllZones_suffixes.
    fold n. apply Nat.ltb_lt in Hn. now rewrite Hn.
Qed.

(** ** The resolver in terms of concatenation *)

Lemma append_empty_r (s : string) : String.append s "" = s.
Proof. induction s as [|a s IH]; [reflexivity |]. rewrite append_String. now rewrite IH. Qed.

Lemma TrimLeft_dots d s : onlyDots d -> TrimLeft (String.append d s) dot = TrimLeft s dot.
Proof.
  induction d as [|a d IH]; intros Hd; [reflexivity |].
  destruct Hd as [-> Hd]. rewrite append_String. simpl. now apply IH.
Qed.

Lemma TrimLeft_no_dot s : ~ startsWithDot s -> TrimLeft s dot = s.
Proof.
  destruct s as [|a s]; intros H; [reflexivity |]. simpl.
  destruct (Ascii.eqb_spec a dot) as [->|Hne]; [| reflexivity].
  exfalso. apply H. now exists s.
Qed.

Lemma TrimRight_dots d : onlyDots d -> TrimRight d dot = "".
Proof.
  induction d as [|a d IH]; intros Hd; [reflexivity |].
  destruct Hd as [-> Hd]. simpl. now rewrite (IH Hd).
Qed.

Lemma TrimRight_app_dots t d :
  onlyDots d -> ~ endsWithDot t -> TrimRight (String.append t d) dot = t.
Proof.
  intros Hd. induction t as [|a t IH]; intros Ht.
  - now apply TrimRight_dots.
  - rewrite append_String. simpl. destruct t as [|b t].
    + change (String.append "" d) with d. rewrite (TrimRight_dots d Hd).
      destruct (Ascii.eqb_spec a dot) as [->|Hne]; [| reflexivity].
      exfalso. apply Ht. now exists "".
    + rewrite IH; [reflexivity |].
      intros [r Hr]. apply Ht. exists (String a r). rewrite append_String. now rewrite Hr.
Qed.

Lemma startsWithDot_app t d : t <> "" -> startsWithDot (String.append t d) -> startsWithDot t.
Proof.
  destruct t as [|a t]; intros Hne [r Hr]; [congruence |].
  rewrite append_String in Hr. injection Hr as -> _. now exists t.
Qed.

(** The dot-trimmed string is determined by concatenation alone. *)
Lemma trimmedOf_unique s t : trimmedOf s t -> t = Trim s dot.
Proof.
  intros (d1 & d2 & -> & Hd1 & Hd2 & Hstart & Hend).
  unfold Trim. rewrite (TrimLeft_dots d1 _ Hd1).
  destruct t as [|a t].
  - change (String.append "" d2) with d2.
    assert (Hl : TrimLeft d2 dot = "").
    { apply TrimRight_empty_TrimLeft. now apply TrimRight_dots. }
    now rewrite Hl.
  - rewrite TrimLeft_no_dot.
    + symmetry. now apply TrimRight_app_dots.
    + intros H. apply Hstart. apply (startsWithDot_app _ d2); [discriminate | exact H].
Qed.

Lemma TrimLeft_split s :
  exists d, s = String.append d (TrimLeft s dot) /\ onlyDots d
            /\ ~ startsWithDot (TrimLeft s dot).
Proof.
  induction s as [|a s (d & Hs & Hd & Hn)].
  - exists "". repeat split. intros [r Hr]. discriminate.
  - simpl. destruct (Ascii.eqb_spec a dot) as [->|Hne].
    + exists (String dot d). rewrite append_String, <- Hs. repeat split; assumption.
    + exists "". repeat split. intros [r Hr]. injection Hr as -> _. congruence.
Qed.

Lemma TrimRight_split s :
  exists d, s = String.append (TrimRight s dot) d /\ onlyDots d.
Proof.
  induction s as [|a s (d & Hs & Hd)].
  - now exists "".
  - simpl. destruct (TrimRight s dot) as [|b t] eqn:E.
    + change (String.append "" d) with d in Hs. subst d.
      destruct (Ascii.eqb_spec a dot) as [->|Hne].
      * exists (String dot s). split; [reflexivity | split; [reflexivity | exact Hd]].
      * exists s. split; [reflexivity | exact Hd].
    + exists d. rewrite append_String, <- Hs. split; [reflexivity | exact Hd].
Qed.

Lemma TrimRight_keeps_start s : ~ startsWithDot s -> ~ startsWithDot (TrimRight s dot).
Proof.
  destruct s as [|a s]; intros H [r Hr]; [discriminate |].
  simpl in Hr. destruct (TrimRight s dot).
  - destruct (Ascii.eqb_spec a dot) as [->|Hne]; [discriminate |].
    injection Hr as -> _. congruence.
  - injection Hr as -> _. apply H. now exists s.
Qed.

Lemma trimmedOf_Trim s : trimmedOf s (Trim s dot).
Proof.
  destruct (TrimLeft_split s) as (d1 & Hs & Hd1 & Hstart).
  destruct (TrimRight_split (TrimLeft s dot)) as (d2 & Hl & Hd2).
  exists d1, d2. unfold Trim. rewrite <- Hl, <- Hs.
  split; [reflexivity |]. split; [exact Hd1 |]. split; [exact Hd2 |].
  split; [now apply TrimRight_keeps_start |].
  intros [r Hr]. now apply TrimRight_not_ends in Hr.
Qed.

Lemma Split_app_dot pre s :
  Split (String.append pre (String.append "." s)) dot = Split pre dot ++ Split s dot.
Proof.
  induction pre as [|a pre IH].
  - reflexivity.
  - rewrite append_String. simpl. rewrite IH.
    destruct (Ascii.eqb a dot); [reflexivity |].
    destruct (Split pre dot) as [|p ps] eqn:E; [now apply Split_nonempty in E |].
    reflexivity.
Qed.

Lemma Split_hasDot s : hasDot s -> 2 <= length (Split s dot).
Proof.
  intros (a & b & ->). rewrite Split_app_dot, length_app.
  pose proof (Split_nonempty a dot). pose proof (Split_nonempty b dot).
  destruct (Split a dot); [congruence |]. destruct (Split b dot); [congruence |].
  simpl. lia.
Qed.

Lemma Join_take_drop (parts : list string) (i : nat) :
  0 < i -> i < length parts ->
  Join parts "." = String.append (Join (take i parts) ".")
                     (String.append "." (Join (drop i parts) ".")).
Proof.
  revert parts. induction i as [|i IH]; intros parts Hi Hlen; [lia |].
  destruct parts as [|p [|q ps]]; simpl in Hlen; try lia.
  destruct i as [|i].
  - reflexivity.
  - rewrite Join_cons2. rewrite (IH (q :: ps)) by (simpl; lia).
    change (take (S (S i)) (p :: q :: ps)) with (p :: take (S i) (q :: ps)).
    change (drop (S (S i)) (p :: q :: ps)) with (drop (S i) (q :: ps)).
    destruct (take (S i) (q :: ps)) as [|x xs] eqn:E; [discriminate |].
    rewrite Join_cons2, !append_assoc. reflexivity.
Qed.

(** The candidates of [extractAllZones] are the suffixes that start at a
    label and have a dot. *)
Lemma suffixAt_dotSuffix name i :
  i + 2 <= length (labels name) ->
  dotSuffix (Trim name dot) (suffixAt name i) /\ hasDot (suffixAt name i).
Proof.
  intros Hi. unfold suffixAt. split.
  - destruct i as [|i].
    + left. rewrite drop_0. unfold labels. apply Join_Split.
    + right. exists (Join (take (S i) (labels name)) ".").
      rewrite <- Join_take_drop by lia. unfold labels. now rewrite Join_Split.
  - destruct (lookup_lt_is_Some_2 (labels name) i) as [p Hp]; [lia |].
    destruct (lookup_lt_is_Some_2 (labels name) (S i)) as [q Hq]; [lia |].
    rewrite (drop_S _ _ _ Hp), (drop_S _ _ _ Hq), Join_cons2.
    now exists p, (Join (q :: drop (S (S i)) (labels name)) ".").
Qed.

Lemma dotSuffix_suffixAt name s :
  dotSuffix (Trim name dot) s -> hasDot s ->
  exists i, i + 2 <= length (labels name) /\ s = suffixAt name i.
Proof.
  intros Hs Hdot. pose proof (Split_hasDot s Hdot) as Hlen. unfold suffixAt, labels.
  destruct Hs as [-> | [pre Hpre]].
  - exists 0. split; [simpl; lia |]. rewrite drop_0. now rewrite Join_Split.
  - exists (length (Split pre dot)). rewrite Hpre, Split_app_dot, length_app.
    split; [lia |]. rewrite drop_app_length. now rewrite Join_Split.
Qed.

Lemma endsWithDot_empty : ~ endsWithDot "".
Proof. intros [[|a r] Hr]; discriminate. Qed.

Lemma endsWithDot_inv a s : endsWithDot (String a s) -> (a = dot /\ s = "") \/ endsWithDot s.
Proof.
  intros [[|b r] Hr].
  - left. injection Hr as -> ->. now split.
  - right. rewrite append_String in Hr. injection Hr as _ ->. now exists r.
Qed.

(** C4. The resolver returns the longest suffix of the name that is a known
    zone, or no zone.  The name is first stripped of its leading and
    trailing dots; the candidates are the stripped name and what follows
    each of its dots, as long as they still have a dot, that is two labels.
    Among the candidates that are known zones the resolver takes the one
    strictly longer than every other and returns it stripped of its own
    leading and trailing dots, which is never the empty string; when no
    candidate is a known zone it returns the empty string.  A name without
    a dot once stripped resolves to no zone. *)
Theorem resolver_longest_suffix (filters : list string) (name trimmed : string) :
  trimmedOf name trimmed ->
  let resolve := zoneFromDNSNameGetter filters in
  ((resolve name = "" /\ forall s, ~ zoneCandidate filters trimmed s)
   \/ (exists s, zoneCandidate filters trimmed s
         /\ (forall s', zoneCandidate filters trimmed s' ->
              s' = s \/ String.length s' < String.length s)
         /\ trimmedOf s (resolve name)
         /\ resolve name <> ""))
  /\ (~ hasDot trimmed -> resolve name = "").
Proof.
  intros Ht resolve. apply trimmedOf_unique in Ht. subst trimmed.
  destruct (resolver_by_labels filters name) as (Hlen & _ & Hres & _).
  fold resolve in Hres.
  assert (Hmain :
    (resolve name = "" /\ forall s, ~ zoneCandidate filters (Trim name dot) s)
    \/ (exists s, zoneCandidate filters (Trim name dot) s
          /\ (forall s', zoneCandidate filters (Trim name dot) s' ->
               s' = s \/ String.length s' < String.length s)
          /\ trimmedOf s (resolve name)
          /\ resolve name <> "")).
  { destruct Hres as [[Hnone Hall] | (i & Hi & Hin & Hfirst & Heq & Hne)].
    - left. split; [exact Hnone |].
      intros s (Hs & Hdot & Hin).
      destruct (dotSuffix_suffixAt name s Hs Hdot) as (i & Hi & ->).
      now apply (Hall i Hi).
    - right. exists (suffixAt name i).
      destruct (suffixAt_dotSuffix name i Hi) as [Hs Hdot].
      split; [now repeat split |]. split; [| split; [| exact Hne]].
      + intros s' (Hs' & Hdot' & Hin').
        destruct (dotSuffix_suffixAt name s' Hs' Hdot') as (j & Hj & ->).
        destruct (Nat.lt_trichotomy j i) as [Hlt | [-> | Hgt]].
        * now destruct (Hfirst j Hlt).
        * now left.
        * right. now apply Hlen.
      + rewrite Heq. apply trimmedOf_Trim. }
  split; [exact Hmain |].
  intros Hno. destruct Hmain as [[Hnone _] | (s & (Hs & Hdot & _) & _)]; [exact Hnone |].
  exfalso. apply Hno. destruct Hs as [-> | [pre ->]]; [exact Hdot |].
  destruct Hdot as (a & b & ->).
  exists (String.append pre (String.append "." a)), b.
  now rewrite !append_assoc.
Qed.


(** ** Properties of the SDK client *)

Lemma exec_bind {S A B : Type} (serve : S -> request -> response * S)
    (m : client A) (f : A -> client B) (s : S) :
  exec serve (bind m f) s
  = let '(a, s', reqs) := exec serve m s in
    let '(b, s'', reqs') := exec serve (f a) s' in
    (b, s'', reqs ++ reqs').
Proof.
  revert s. induction m as [a | req k IH]; intros s; simpl.
  - destruct (exec serve (f a) s) as [[b s''] reqs']. reflexivity.
  - destruct (serve s req) as [resp s']. rewrite IH.
    destruct (exec serve (k resp) s') as [[a s''] reqs].
    destruct (exec serve (f a) s'') as [[b s'''] reqs']. reflexivity.
Qed.

Lemma isNotFound_Errorf prefix e : isNotFound (Errorf prefix e) = isNotFound e.
Proof. reflexivity. Qed.

(** C9 (amended). [DeleteRRSetRecord] returns nil, after the GET alone, when
    the remote answers it with not found; and when the RRSet it fetched has
    at least one record and none is kept, it issues the DELETE of the whole
    RRSet and returns nil when that is answered with success or with not
    found (any other failure is returned wrapped). *)
Theorem DeleteRRSetRecord_absent_or_emptied {S : Type}
    (serve : S -> request -> response * S) (s : S)
    (zone name recordType : string) (contents : list string) :
  let u := rrsetURI zone name recordType in
  let run := exec serve (Client_DeleteRRSetRecord zone name recordType contents) s in
  (forall e, fst (serve s (ReqGet u)) = RespErr e -> isNotFound e = true ->
     run = (None, snd (serve s (ReqGet u)), [ReqGet u]))
  /\ (forall rrSet, fst (serve s (ReqGet u)) = RespRRSet rrSet ->
        Records rrSet <> [] ->
        keptRecords contents (Records rrSet) = [] ->
        let s' := snd (serve s (ReqGet u)) in
        run = (match fst (serve s' (ReqDelete u)) with
               | RespErr e =>
                   if isNotFound e then None
                   else Some (Errorf "delete rrset" (Errorf "delete record request" e))
               | _ => None
               end,
               snd (serve s' (ReqDelete u)),
               [ReqGet u; ReqDelete u])).
Proof.
  intros u run. subst run. unfold Client_DeleteRRSetRecord, Client_RRSet, doDecode.
  fold u. split.
  - intros e Hget Hnf. simpl. destruct (serve s (ReqGet u)) as [resp s'].
    simpl in Hget. subst resp. simpl. rewrite isNotFound_Errorf, Hnf. reflexivity.
  - intros rrSet Hget Hne Hkept. simpl. destruct (serve s (ReqGet u)) as [resp s'].
    simpl in Hget. subst resp. simpl.
    destruct (Records rrSet) as [|r rs] eqn:ER; [congruence |].
    simpl length at 1. cbn [Nat.eqb]. rewrite Hkept. simpl.
    fold u. destruct (serve s' (ReqDelete u)) as [resp' s'']. simpl.
    destruct resp' as [r' | | e]; simpl; try reflexivity.
    destruct (isNotFound e); reflexivity.
Qed.

Lemma firstError_Some_elem results err :
  firstError results = Some err -> Some err ∈ results.
Proof.
  induction results as [|[e|] rest IH]; simpl; intros H; [discriminate | |].
  - injection H as ->. left.
  - right. now apply IH.
Qed.

Lemma firstError_None results :
  firstError results = None <-> Forall (fun r => r = None) results.
Proof.
  induction results as [|[e|] rest IH]; simpl.
  - split; [constructor | reflexivity].
  - split; [discriminate | intros H; inversion H; discriminate].
  - rewrite IH. split; [now constructor | intros H; now inversion H].
Qed.

Lemma storeZones_length fetch i zones : length (storeZones fetch i zones) = length zones.
Proof.
  revert i. induction zones as [|z rest IH]; intros i; simpl; [reflexivity |].
  destruct (snd (zoneTask fetch i z)); simpl; now rewrite IH.
Qed.

Lemma storeZones_lookup fetch k zones i z zone :
  zones !! i = Some z ->
  fetch (k + i) (Trim (ZoneName z) dot) = inl zone ->
  storeZones fetch k zones !! i = Some zone.
Proof.
  revert k i. induction zones as [|z0 rest IH]; intros k i Hz Hf; [discriminate |].
  destruct i as [|i]; simpl in Hz.
  - injection Hz as ->. simpl. unfold zoneTask, Client_Zone.
    rewrite Nat.add_0_r in Hf. rewrite Hf. reflexivity.
  - simpl. replace (k + S i) with (S k + i) in Hf by lia.
    destruct (snd (zoneTask fetch k z0)); simpl; now apply IH.
Qed.

(** C8. With the zone listing itself successful and every started goroutine
    completing once (in any order): if the detail fetch of some zone fails,
    [AllZonesWithRecords] returns the nil slice and one error that wraps,
    under "zone info", the name of a zone whose fetch failed and that fetch's
    error; if every fetch succeeds it returns each zone replaced by its
    fetched detail and no error; so a nil error is returned only when every
    fetch succeeded. *)
Theorem AllZonesWithRecords_all_or_nothing
    (page : Z -> ListZones + error) (fetch : nat -> string -> Zone + error)
    (order : list nat) (zones : list Zone) :
  AllZones page = (zones, None) ->
  Permutation order (seq 0 (length zones)) ->
  ((exists i z e, zones !! i = Some z /\ fetch i (Trim (ZoneName z) dot) = inr e) ->
   exists i z e,
     zones !! i = Some z
     /\ fetch i (Trim (ZoneName z) dot) = inr e
     /\ AllZonesWithRecords page fetch order
        = ([], Some (Errorf "zone info"
                      (Errorf (ZoneName z)
                        (Errorf (String.append "get zone " (Trim (ZoneName z) dot)) e)))))
  /\ ((forall i z, zones !! i = Some z ->
         exists zone, fetch i (Trim (ZoneName z) dot) = inl zone) ->
      exists fetched,
        AllZonesWithRecords page fetch order = (fetched, None)
        /\ length fetched = length zones
        /\ forall i z, zones !! i = Some z ->
             exists zone, fetch i (Trim (ZoneName z) dot) = inl zone
                          /\ fetched !! i = Some zone)
  /\ (forall fetched, AllZonesWithRecords page fetch order = (fetched, None) ->
      forall i z, zones !! i = Some z ->
        exists zone, fetch i (Trim (ZoneName z) dot) = inl zone).
Proof.
  intros Hlist Hperm.
  set (result := fun i : nat =>
         match zones !! i with
         | Some z => fst (zoneTask fetch i z)
         | None => None
         end).
  assert (Hrun : AllZonesWithRecords page fetch order
                 = match firstError (map result order) with
                   | Some err => ([], Some (Errorf "zone info" err))
                   | None => (storeZones fetch 0 zones, None)
                   end).
  { unfold AllZonesWithRecords. rewrite Hlist. reflexivity. }
  assert (Hshape : forall err, firstError (map result order) = Some err ->
            exists i z e, zones !! i = Some z
              /\ fetch i (Trim (ZoneName z) dot) = inr e
              /\ err = Errorf (ZoneName z)
                         (Errorf (String.append "get zone " (Trim (ZoneName z) dot)) e)).
  { intros err Herr. apply firstError_Some_elem in Herr.
    apply list_elem_of_fmap in Herr as (i & Hres & _).
    unfold result in Hres. destruct (zones !! i) as [z|] eqn:Hz; [| discriminate].
    unfold zoneTask, Client_Zone in Hres.
    destruct (fetch i (Trim (ZoneName z) dot)) as [zone|e] eqn:Hf; [discriminate |].
    simpl in Hres. injection Hres as ->. now exists i, z, e. }
  assert (Hfail : (exists i z e, zones !! i = Some z
                     /\ fetch i (Trim (ZoneName z) dot) = inr e) ->
            exists err, firstError (map result order) = Some err).
  { intros (i & z & e & Hz & Hf).
    destruct (firstError (map result order)) as [err|] eqn:E; [now exists err |].
    apply firstError_None in E. rewrite Forall_forall in E.
    assert (Hin : i ∈ order).
    { rewrite Hperm. apply list_elem_of_In, in_seq.
      apply lookup_lt_Some in Hz. lia. }
    assert (Hnone : result i = None).
    { apply E, list_elem_of_fmap. now exists i. }
    unfold result in Hnone. rewrite Hz in Hnone.
    unfold zoneTask, Client_Zone in Hnone. rewrite Hf in Hnone. discriminate. }
  split; [| split].
  - intros Hex. destruct (Hfail Hex) as [err Herr].
    destruct (Hshape err Herr) as (i & z & e & Hz & Hf & ->).
    exists i, z, e. rewrite Hrun, Herr. auto.
  - intros Hall. exists (storeZones fetch 0 zones).
    destruct (firstError (map result order)) as [err|] eqn:E.
    + destruct (Hshape err eq_refl) as (i & z & e & Hz & Hf & _).
      destruct (Hall i z Hz) as [zone Hzone]. congruence.
    + rewrite Hrun. split; [reflexivity |]. split; [apply storeZones_length |].
      intros i z Hz. destruct (Hall i z Hz) as [zone Hzone].
      exists zone. split; [exact Hzone |]. now apply (storeZones_lookup fetch 0 zones i z).
  - intros fetched Hres i z Hz.
    destruct (fetch i (Trim (ZoneName z) dot)) as [zone|e] eqn:Hf; [now exists zone |].
    destruct Hfail as [err Herr]; [now exists i, z, e |].
    rewrite Hrun, Herr in Hres. discriminate.
Qed.

(** ** Properties of the loops of [ApplyChanges] *)

Lemma missingFrom_nil from against :
  (forall t, t ∈ from -> t ∈ against) -> missingFrom from against = [].
Proof.
  induction from as [|t rest IH]; intros H; simpl; [reflexivity |].
  assert (Ht : targetExists t against = true) by (apply targetExists_elem, H; left).
  rewrite Ht. apply IH. intros t' Ht'. apply H. now right.
Qed.

Lemma unexistingTargets_same_sets existing candidates diffFromExisting :
  (forall c, c ∈ candidates -> sameRecord existing c ->
     forall t, t ∈ Targets existing <-> t ∈ Targets c) ->
  unexistingTargets existing candidates diffFromExisting = [].
Proof.
  induction candidates as [|c rest IH]; intros H; simpl; [reflexivity |].
  destruct (negb (String.eqb (RecordType c) (RecordType existing))
            || negb (String.eqb (DNSName c) (DNSName existing))) eqn:E.
  - apply IH. intros c' Hc'. apply H. now right.
  - apply sameRecord_test in E.
    assert (Hc : c ∈ c :: rest) by left.
    destruct diffFromExisting; apply missingFrom_nil; intros t Ht;
      now apply (H c Hc E t).
Qed.

Lemma teardownLoop_idle dryRun extractZone updateOld entries updated :
  (forall d, d ∈ entries ->
     extractZone (DNSName d) = "" \/ unexistingTargets d updateOld false = []) ->
  teardownLoop dryRun extractZone updateOld entries updated = (updated, [], []).
Proof.
  induction entries as [|d rest IH]; intros H; simpl; [reflexivity |].
  assert (Hrest : forall d', d' ∈ rest ->
            extractZone (DNSName d') = "" \/ unexistingTargets d' updateOld false = []).
  { intros d' Hd'. apply H. now right. }
  destruct (String.eqb_spec (extractZone (DNSName d)) "") as [Hz|Hz]; [now apply IH |].
  destruct (H d) as [Hd|Hd]; [left | congruence |].
  rewrite Hd. simpl. rewrite (IH Hrest). reflexivity.
Qed.

Lemma updateAddLoop_idle dryRun extractZone updateOld entries updated :
  (forall d, d ∈ entries ->
     extractZone (DNSName d) = "" \/ unexistingTargets d updateOld true = []) ->
  updateAddLoop dryRun extractZone updateOld entries updated = (updated, [], []).
Proof.
  induction entries as [|d rest IH]; intros H; simpl; [reflexivity |].
  assert (Hrest : forall d', d' ∈ rest ->
            extractZone (DNSName d') = "" \/ unexistingTargets d' updateOld true = []).
  { intros d' Hd'. apply H. now right. }
  destruct (String.eqb_spec (extractZone (DNSName d)) "") as [Hz|Hz]; [now apply IH |].
  destruct (H d) as [Hd|Hd]; [left | congruence |].
  rewrite Hd. simpl. rewrite (IH Hrest). reflexivity.
Qed.

Lemma deleteLoop_idle dryRun extractZone entries deleted :
  (forall d, d ∈ entries -> extractZone (DNSName d) = "") ->
  deleteLoop dryRun extractZone entries deleted = (deleted, [], []).
Proof.
  induction entries as [|d rest IH]; intros H; simpl; [reflexivity |].
  rewrite (H d) by left. simpl. apply IH. intros d' Hd'. apply H. now right.
Qed.

Lemma createLoop_idle dryRun extractZone entries created :
  (forall c, c ∈ entries -> extractZone (DNSName c) = "" \/ RecordType c = "TXT") ->
  createLoop dryRun extractZone entries created = (created, [], []).
Proof.
  induction entries as [|c rest IH]; intros H; simpl; [reflexivity |].
  assert (Hc : String.eqb (extractZone (DNSName c)) "" || String.eqb (RecordType c) "TXT"
               = true).
  { destruct (H c) as [-> | ->]; [left | reflexivity |].
    rewrite String.eqb_refl. apply orb_true_r. }
  rewrite Hc. apply IH. intros c' Hc'. apply H. now right.
Qed.

(** With nothing to do in any loop, the plan starts no goroutine. *)
Lemma planChanges_idle dryRun listing changes :
  let extractZone := zoneFromDNSNameGetter (GetDomainFilter listing) in
  (forall d, d ∈ UpdateNew changes ->
     extractZone (DNSName d) = ""
     \/ (unexistingTargets d (UpdateOld changes) false = []
         /\ unexistingTargets d (UpdateOld changes) true = [])) ->
  (forall d, d ∈ Delete changes -> extractZone (DNSName d) = "") ->
  (forall c, c ∈ Create changes -> extractZone (DNSName c) = "" \/ RecordType c = "TXT") ->
  dispatchedBeforeWait (planChanges dryRun listing changes) = []
  /\ planUpdateAdd (planChanges dryRun listing changes) = [].
Proof.
  intros extractZone Hupd Hdel Hcre. unfold planChanges. fold extractZone.
  rewrite teardownLoop_idle, deleteLoop_idle, createLoop_idle, updateAddLoop_idle;
    try assumption.
  - split; reflexivity.
  - intros d Hd. destruct (Hupd d Hd) as [H|[_ H]]; auto.
  - intros d Hd. destruct (Hupd d Hd) as [H|[H _]]; auto.
Qed.

Lemma resolver_without_zones name : zoneFromDNSNameGetter [] name = "".
Proof.
  unfold zoneFromDNSNameGetter. generalize (extractAllZones name) as l.
  induction l as [|z rest IH]; simpl; [reflexivity |].
  rewrite searchMap_lookup. simpl. exact IH.
Qed.

(** ** Properties of the interleaving semantics *)

Section AnyRemote.

Context {remote : Type}.
Variable serve : remote -> request -> response -> remote -> Prop.
Variable later : list task.

(** Without goroutines to start, every run leaves the pool empty and the
    remote untouched, and the only results are those of the two waits. *)
Lemma idle_run (r : remote) (main0 : pc) (s : state remote) :
  later = [] ->
  main0 = BeforeWait2 [] \/ main0 = Returned None ->
  rtc (step serve later)
      {| stRemote := r; stPool := []; stErr1 := None; stErr2 := None; stMain := main0 |} s ->
  stRemote s = r /\ stPool s = [] /\ stErr1 s = None /\ stErr2 s = None
  /\ (stMain s = BeforeWait2 [] \/ stMain s = BeforeWait1 [] \/ stMain s = Returned None).
Proof.
  intros Hlater Hmain Hrun.
  apply (rtc_ind_r (fun s => stRemote s = r /\ stPool s = [] /\ stErr1 s = None
                            /\ stErr2 s = None
                            /\ (stMain s = BeforeWait2 [] \/ stMain s = BeforeWait1 []
                                \/ stMain s = Returned None)) _) in Hrun; [exact Hrun | |].
  - simpl. repeat split. tauto.
  - clear Hrun. intros s1 s2 _ Hstep (Hr & Hp & He1 & He2 & Hm).
    inversion Hstep; subst; simpl in *; subst;
      try (destruct Hm as [Hm|[Hm|Hm]]; discriminate);
      try (rewrite lookup_nil in *; discriminate);
      repeat split; auto.
Qed.

(** Such a run does return, and returns nil. *)
Lemma idle_run_returns (r : remote) (main0 : pc) :
  later = [] ->
  main0 = BeforeWait2 [] \/ main0 = Returned None ->
  exists s,
    rtc (step serve later)
        {| stRemote := r; stPool := []; stErr1 := None; stErr2 := None; stMain := main0 |} s
    /\ stMain s = Returned None.
Proof.
  intros -> [-> | ->].
  - exists {| stRemote := r; stPool := []; stErr1 := None; stErr2 := None;
              stMain := Returned None |}.
    split; [| reflexivity].
    eapply rtc_l; [apply step_wait2_ok; constructor |].
    eapply rtc_l; [apply step_wait1; constructor |].
    apply rtc_refl.
  - eexists. split; [apply rtc_refl | reflexivity].
Qed.

Lemma idle_plan (dryRun : bool) (listing : list Zone * option error) (changes : Changes)
    (r : remote) :
  dispatchedBeforeWait (planChanges dryRun listing changes) = [] ->
  planUpdateAdd (planChanges dryRun listing changes) = later ->
  later = [] ->
  (forall s, rtc (step serve later) (ApplyChanges dryRun listing changes r) s ->
     stPool s = [] /\ stRemote s = r /\ forall res, stMain s = Returned res -> res = None)
  /\ (exists s, rtc (step serve later) (ApplyChanges dryRun listing changes r) s
                /\ stMain s = Returned None).
Proof.
  intros HD _ Hlater. unfold ApplyChanges. rewrite HD.
  assert (Hmain : (if HasChanges changes then BeforeWait2 [] else Returned None)
                  = BeforeWait2 [] \/
                  (if HasChanges changes then BeforeWait2 [] else Returned None)
                  = Returned None).
  { destruct (HasChanges changes); auto. }
  split.
  - intros s Hrun. destruct (idle_run r _ s Hlater Hmain Hrun) as (Hr & Hp & _ & _ & Hm).
    repeat split; try assumption.
    intros res Hres. rewrite Hres in Hm.
    destruct Hm as [Hm|[Hm|Hm]]; try discriminate. now injection Hm.
  - now apply idle_run_returns.
Qed.

End AnyRemote.

(** C10. When the zone listing fails, [GetDomainFilter] returns the empty
    filter, the resolver built from it maps every name to no zone, and
    [ApplyChanges] then starts no goroutine, leaves the remote untouched and
    returns nil, whatever the change set and the mode. *)
Theorem listing_failure_skips_everything {remote : Type}
    (serve : remote -> request -> response -> remote -> Prop)
    (dryRun : bool) (zs : list Zone) (err : error) (changes : Changes) (r : remote) :
  let listing := (zs, Some err) in
  GetDomainFilter listing = []
  /\ (forall name, zoneFromDNSNameGetter (GetDomainFilter listing) name = "")
  /\ (forall s, reaches serve dryRun listing changes r s ->
        stPool s = [] /\ stRemote s = r
        /\ forall res, stMain s = Returned res -> res = None)
  /\ (exists s, reaches serve dryRun listing changes r s /\ stMain s = Returned None).
Proof.
  intros listing.
  assert (Hres : forall name, zoneFromDNSNameGetter (GetDomainFilter listing) name = "").
  { intros name. apply resolver_without_zones. }
  split; [reflexivity | split; [exact Hres |]].
  destruct (planChanges_idle dryRun listing changes) as [HD Hlater].
  - intros d _. left. apply Hres.
  - intros d _. apply Hres.
  - intros c _. left. apply Hres.
  - unfold reaches. now apply idle_plan.
Qed.

(** C7. When every updateNew entry has the same set of targets as each
    updateOld entry of its name and type, and no delete or create entry
    gives work (none resolves to a zone, or it is a skipped TXT create),
    [ApplyChanges] starts no goroutine and makes no call to the remote, and
    returns nil. *)
Theorem unchanged_update_makes_no_call {remote : Type}
    (serve : remote -> request -> response -> remote -> Prop)
    (dryRun : bool) (listing : list Zone * option error) (changes : Changes) (r : remote) :
  (forall d c, d ∈ UpdateNew changes -> c ∈ UpdateOld changes -> sameRecord d c ->
     forall t, t ∈ Targets d <-> t ∈ Targets c) ->
  (forall d, d ∈ Delete changes ->
     zoneFromDNSNameGetter (GetDomainFilter listing) (DNSName d) = "") ->
  (forall c, c ∈ Create changes ->
     zoneFromDNSNameGetter (GetDomainFilter listing) (DNSName c) = ""
     \/ RecordType c = "TXT") ->
  (forall s, reaches serve dryRun listing changes r s ->
     stPool s = [] /\ stRemote s = r
     /\ forall res, stMain s = Returned res -> res = None)
  /\ (exists s, reaches serve dryRun listing changes r s /\ stMain s = Returned None).
Proof.
  intros Hsame Hdel Hcre.
  destruct (planChanges_idle dryRun listing changes) as [HD Hlater]; try assumption.
  - intros d Hd. right.
    split; apply unexistingTargets_same_sets; intros c Hc Hm; now apply Hsame.
  - unfold reaches. now apply idle_plan.
Qed.

Lemma groupDoneb_spec g pool : groupDoneb g pool = true <-> groupDone g pool.
Proof.
  unfold groupDoneb, groupDone. rewrite forallb_forall, List.Forall_forall.
  split; intros H x Hx.
  - intros Hg. specialize (H x Hx). rewrite Hg in H. exact H.
  - specialize (H x Hx). destruct (isGroup (gGroup x) g); [rewrite H; reflexivity | reflexivity].
Qed.

Section Scheduler.

Context {remote : Type}.
Variable serveF : remote -> request -> response * remote.
Variable later : list task.

Lemma callerStep_sound (s s' : state remote) :
  callerStep later s = Some s' -> step (served serveF) later s s'.
Proof.
  destruct s as [r pool e1 e2 main]. unfold callerStep. simpl.
  destruct main as [[|[g t] todo] | [|t todo] | res]; try discriminate.
  - destruct (groupDoneb gr2 pool) eqn:E; [| discriminate].
    apply groupDoneb_spec in E.
    destruct e2 as [err|]; intros H; injection H as <-; now constructor.
  - intros H; injection H as <-. constructor.
  - destruct (groupDoneb gr1 pool) eqn:E; [| discriminate].
    apply groupDoneb_spec in E. intros H; injection H as <-. now constructor.
  - intros H; injection H as <-. constructor.
Qed.

Lemma goroutineStep_sound (i : nat) (s s' : state remote) :
  goroutineStep serveF i s = Some s' -> step (served serveF) later s s'.
Proof.
  destruct s as [r pool e1 e2 main]. unfold goroutineStep. simpl.
  destruct (pool !! i) as [x|] eqn:Hx; [| discriminate].
  destruct (gDone x) eqn:Hd; [discriminate |].
  destruct (gCode x) as [err | req k] eqn:Hc.
  - intros H; injection H as <-. now apply step_exit.
  - destruct (serveF r req) as [resp r'] eqn:Hs.
    intros H; injection H as <-. now apply (step_http _ _ r r' pool i x req k resp).
Qed.

Lemma runSchedule_sound (schedule : list action) (s s' : state remote) :
  runSchedule serveF later schedule s = Some s' ->
  rtc (step (served serveF) later) s s'.
Proof.
  revert s. induction schedule as [|[|i] rest IH]; intros s; simpl.
  - intros H; injection H as <-. apply rtc_refl.
  - destruct (callerStep later s) as [s1|] eqn:E; [| discriminate].
    intros H. apply rtc_l with s1; [apply callerStep_sound, E | apply IH, H].
  - destruct (goroutineStep serveF i s) as [s1|] eqn:E; [| discriminate].
    intros H. apply rtc_l with s1; [apply (goroutineStep_sound i), E | apply IH, H].
Qed.

End Scheduler.

Lemma dispatched_app pool g t :
  dispatched (pool ++ [spawn g t]) = dispatched pool ++ [(g, t)].
Proof. unfold dispatched. now rewrite map_app. Qed.

Lemma dispatched_insert pool i x y :
  pool !! i = Some x -> gGroup y = gGroup x -> gTask y = gTask x ->
  dispatched (<[i := y]> pool) = dispatched pool.
Proof.
  intros Hx Hg Ht. unfold dispatched. revert i Hx.
  induction pool as [|z rest IH]; intros i Hx; [discriminate |].
  destruct i as [|i]; simpl in *.
  - injection Hx as ->. now rewrite Hg, Ht.
  - f_equal. now apply IH.
Qed.

Lemma groupDone_spawn g g' t pool :
  isGroup g' g = false -> groupDone g pool -> groupDone g (pool ++ [spawn g' t]).
Proof.
  intros Hg H. unfold groupDone. apply Forall_app. split; [exact H |].
  constructor; [| constructor]. simpl. intros Hc. congruence.
Qed.

Lemma groupDone_insert g pool i x y :
  pool !! i = Some x -> gGroup y = gGroup x -> (gDone x = true -> gDone y = true) ->
  groupDone g pool -> groupDone g (<[i := y]> pool).
Proof.
  intros Hx Hg Hd H. unfold groupDone in *.
  rewrite Forall_forall in H. apply Forall_forall. intros z Hz.
  apply list_elem_of_lookup in Hz as [j Hj].
  destruct (decide (i = j)) as [<-|Hne].
  - rewrite list_lookup_insert_eq in Hj by (now apply lookup_lt_Some in Hx).
    injection Hj as <-. rewrite Hg. intros Hc. apply Hd, (H x); [| exact Hc].
    apply list_elem_of_lookup. now exists i.
  - rewrite list_lookup_insert_ne in Hj by assumption.
    apply H, list_elem_of_lookup. now exists j.
Qed.

Lemma groupDone_running g pool i x :
  groupDone g pool -> pool !! i = Some x -> gDone x = false -> isGroup (gGroup x) g = false.
Proof.
  intros H Hx Hd. unfold groupDone in H. rewrite Forall_forall in H.
  destruct (isGroup (gGroup x) g) eqn:E; [| reflexivity].
  rewrite (H x) in Hd; [discriminate | | exact E].
  apply list_elem_of_lookup. now exists i.
Qed.

Lemma returnedBy_spawn g e pool g' t :
  returnedBy g e pool -> returnedBy g e (pool ++ [spawn g' t]).
Proof.
  intros (x & Hx & H). exists x. split; [| exact H]. apply elem_of_app. now left.
Qed.

Lemma returnedBy_insert g e pool i x y :
  pool !! i = Some x -> gDone x = false ->
  returnedBy g e pool -> returnedBy g e (<[i := y]> pool).
Proof.
  intros Hx Hd (z & Hz & Hg & Hdz & Hc). exists z. split; [| auto].
  apply list_elem_of_lookup in Hz as [j Hj]. apply list_elem_of_lookup.
  exists j. rewrite list_lookup_insert_ne; [exact Hj |].
  intros <-. rewrite Hx in Hj. injection Hj as <-. congruence.
Qed.

Lemma returnedBy_finish g e pool i x :
  pool !! i = Some x -> gGroup x = g -> gCode x = Return (Some e) ->
  returnedBy g e (<[i := finish x]> pool).
Proof.
  intros Hx Hg Hc. exists (finish x). split; [| auto].
  apply list_elem_of_lookup. exists i.
  apply list_lookup_insert_eq. now apply lookup_lt_Some in Hx.
Qed.

Lemma isGroup_eq g g' : isGroup g g' = true <-> g = g'.
Proof. destruct g, g'; simpl; split; intros H; congruence. Qed.

Section Barrier.

Context {remote : Type}.
Variable serve : remote -> request -> response -> remote -> Prop.
Variable before : list (group * task).
Variable later : list task.

Lemma errorsInv_step (s s' : state remote) :
  step serve later s s' -> errorsInv s -> errorsInv s'.
Proof.
  intros Hstep [H1 H2].
  inversion Hstep; subst; unfold errorsInv; simpl in *;
    try (split; intros e He; [apply H1 in He | apply H2 in He];
         first [ exact He | now apply returnedBy_spawn
               | now apply (returnedBy_insert _ _ _ _ x) ]).
  split; intros e He.
  - destruct (isGroup (gGroup x) gr1) eqn:Eg.
    + destruct e1 as [e1'|]; simpl in He.
      * apply (returnedBy_insert _ _ _ _ x); auto.
      * subst err. apply returnedBy_finish; auto. now apply isGroup_eq.
    + apply (returnedBy_insert _ _ _ _ x); auto.
  - destruct (isGroup (gGroup x) gr2) eqn:Eg.
    + destruct e2 as [e2'|]; simpl in He.
      * apply (returnedBy_insert _ _ _ _ x); auto.
      * subst err. apply returnedBy_finish; auto. now apply isGroup_eq.
    + apply (returnedBy_insert _ _ _ _ x); auto.
Qed.

Lemma callerInv_step (s s' : state remote) :
  step serve later s s' -> callerInv before later s -> callerInv before later s'.
Proof.
  intros Hstep Hinv.
  inversion Hstep; subst; unfold callerInv in *; simpl in *.
  - rewrite dispatched_app, <- app_assoc. exact Hinv.
  - right. left. rewrite app_nil_r in Hinv. split; [exact Hinv | now exists err].
  - rewrite app_nil_r in Hinv. rewrite Hinv. auto.
  - destruct Hinv as (Hd & Hg & He). rewrite dispatched_app, <- app_assoc.
    split; [exact Hd |]. split; [| exact He]. now apply groupDone_spawn.
  - destruct Hinv as (Hd & Hg & He). right. right.
    unfold inGroup1 in Hd at 1. simpl in Hd. rewrite app_nil_r in Hd. auto.
  - assert (Hdisp : dispatched (<[i := resume x (k resp)]> pool) = dispatched pool)
      by now apply (dispatched_insert _ _ x).
    assert (Hgd : forall g, groupDone g pool ->
              groupDone g (<[i := resume x (k resp)]> pool))
      by (intros g; now apply (groupDone_insert _ _ _ x)).
    rewrite Hdisp. destruct main as [todo | todo | res]; [exact Hinv | |].
    + destruct Hinv as (Hd & Hg & He). auto.
    + destruct Hinv as [[Hp _] | [Hinv | (Hd & Hg2 & Hg1 & He & Hr)]].
      * rewrite Hp, lookup_nil in *. discriminate.
      * right. left. exact Hinv.
      * right. right. auto 6.
  - assert (Hdisp : dispatched (<[i := finish x]> pool) = dispatched pool)
      by now apply (dispatched_insert _ _ x).
    assert (Hgd : forall g, groupDone g pool -> groupDone g (<[i := finish x]> pool))
      by (intros g; now apply (groupDone_insert _ _ _ x)).
    rewrite Hdisp. destruct main as [todo | todo | res]; [exact Hinv | |].
    + destruct Hinv as (Hd & Hg & He).
      rewrite (groupDone_running gr2 pool i x) by assumption. auto.
    + destruct Hinv as [[Hp _] | [(Hd & e & He & Hr) | (Hd & Hg2 & Hg1 & He & Hr)]].
      * rewrite Hp, lookup_nil in *. discriminate.
      * right. left. split; [exact Hd |]. exists e.
        split; [| exact Hr]. subst e2. destruct (isGroup (gGroup x) gr2); reflexivity.
      * right. right.
        rewrite (groupDone_running gr2 pool i x), (groupDone_running gr1 pool i x)
          by assumption.
        auto 6.
Qed.

Lemma invariants_reach (s0 s : state remote) :
  callerInv before later s0 -> errorsInv s0 ->
  rtc (step serve later) s0 s -> callerInv before later s /\ errorsInv s.
Proof.
  intros Hc He Hrun. induction Hrun as [s | s1 s2 s3 Hstep _ IH]; [auto |].
  apply IH; [now apply (callerInv_step s1) | now apply (errorsInv_step s1)].
Qed.

End Barrier.

(** ** The goroutines of the plan *)

Lemma planContents_live {V : Type} (mkMsg : string -> string) (mkValue : string -> V)
    (contents : list string) (counter : Z) :
  exists counter' logs,
    planContents false mkMsg mkValue contents counter
    = (counter', logs, map mkValue contents, map mkMsg contents).
Proof.
  revert counter. induction contents as [|c rest IH]; intros counter; simpl.
  - now exists counter, [].
  - destruct (IH (uint_incr counter)) as (counter' & logs & ->).
    now exists counter', ((LevelDebug, mkMsg c) :: logs).
Qed.

Lemma planContents_dry {V : Type} (mkMsg : string -> string) (mkValue : string -> V)
    (contents : list string) (counter : Z) :
  exists counter' logs,
    planContents true mkMsg mkValue contents counter = (counter', logs, [], []).
Proof.
  revert counter. induction contents as [|c rest IH]; intros counter; simpl.
  - now exists counter, [].
  - destruct (IH (uint_incr counter)) as (counter' & logs & ->).
    now exists counter', ((LevelInfo, String.append logDryRun (mkMsg c)) :: logs).
Qed.

Lemma teardownLoop_stage dryRun extractZone updateOld entries updated t :
  t ∈ (teardownLoop dryRun extractZone updateOld entries updated).2 ->
  taskStage t = Teardown.
Proof.
  revert updated. induction entries as [|d rest IH]; intros updated; simpl.
  - intros H. inversion H.
  - destruct (String.eqb (extractZone (DNSName d)) ""); [apply IH |].
    destruct (planContents dryRun _ _ _ updated) as [[[u1 logs] values] msgs].
    specialize (IH u1).
    destruct (teardownLoop dryRun extractZone updateOld rest u1) as [[u2 logs'] tasks].
    destruct (length values =? 0)%nat; simpl in *; [exact IH |].
    intros H. inversion H; subst; [reflexivity | now apply IH].
Qed.

Lemma deleteLoop_stage dryRun extractZone entries deleted t :
  t ∈ (deleteLoop dryRun extractZone entries deleted).2 -> taskStage t = StageDelete.
Proof.
  revert deleted. induction entries as [|d rest IH]; intros deleted; simpl.
  - intros H. inversion H.
  - destruct (String.eqb (extractZone (DNSName d)) ""); [apply IH |].
    destruct (planContents dryRun _ _ _ deleted) as [[[u1 logs] values] msgs].
    specialize (IH u1).
    destruct (deleteLoop dryRun extractZone rest u1) as [[u2 logs'] tasks]. simpl in *.
    intros H. inversion H; subst; [reflexivity | now apply IH].
Qed.

Lemma createLoop_stage dryRun extractZone entries created t :
  t ∈ (createLoop dryRun extractZone entries created).2 -> taskStage t = StageCreate.
Proof.
  revert created. induction entries as [|c rest IH]; intros created; simpl.
  - intros H. inversion H.
  - destruct (String.eqb (extractZone (DNSName c)) "" || String.eqb (RecordType c) "TXT");
      [apply IH |].
    destruct (planContents dryRun _ _ _ created) as [[[u1 logs] values] msgs].
    specialize (IH u1).
    destruct (createLoop dryRun extractZone rest u1) as [[u2 logs'] tasks]. simpl in *.
    intros H. inversion H; subst; [reflexivity | now apply IH].
Qed.

Lemma updateAddLoop_stage dryRun extractZone updateOld entries updated t :
  t ∈ (updateAddLoop dryRun extractZone updateOld entries updated).2 ->
  taskStage t = UpdateAdd.
Proof.
  revert updated. induction entries as [|d rest IH]; intros updated; simpl.
  - intros H. inversion H.
  - destruct (String.eqb (extractZone (DNSName d)) ""); [apply IH |].
    destruct (planContents dryRun _ _ _ updated) as [[[u1 logs] values] msgs].
    specialize (IH u1).
    destruct (updateAddLoop dryRun extractZone updateOld rest u1) as [[u2 logs'] tasks].
    destruct (length values =? 0)%nat; simpl in *; [exact IH |].
    intros H. inversion H; subst; [reflexivity | now apply IH].
Qed.

(** The lists of the plan are the task lists of the four loops. *)
Lemma planChanges_lists dryRun listing changes :
  let extractZone := zoneFromDNSNameGetter (GetDomainFilter listing) in
  exists u1,
    planTeardown (planChanges dryRun listing changes)
    = (teardownLoop dryRun extractZone (UpdateOld changes) (UpdateNew changes) 0).2
    /\ planDelete (planChanges dryRun listing changes)
       = (deleteLoop dryRun extractZone (Delete changes) 0).2
    /\ planCreate (planChanges dryRun listing changes)
       = (createLoop dryRun extractZone (Create changes) 0).2
    /\ planUpdateAdd (planChanges dryRun listing changes)
       = (updateAddLoop dryRun extractZone (UpdateOld changes) (UpdateNew changes) u1).2.
Proof.
  intros extractZone. unfold planChanges. fold extractZone.
  destruct (teardownLoop dryRun extractZone (UpdateOld changes) (UpdateNew changes) 0)
    as [[u1 l1] t1].
  destruct (deleteLoop dryRun extractZone (Delete changes) 0) as [[u2 l2] t2].
  destruct (createLoop dryRun extractZone (Create changes) 0) as [[u3 l3] t3].
  exists u1.
  destruct (updateAddLoop dryRun extractZone (UpdateOld changes) (UpdateNew changes) u1)
    as [[u4 l4] t4].
  simpl. auto.
Qed.

Lemma planChanges_stages dryRun listing changes :
  let p := planChanges dryRun listing changes in
  (forall g t, (g, t) ∈ dispatchedBeforeWait p ->
     taskStage t <> UpdateAdd /\ (g = gr2 <-> taskStage t = Teardown))
  /\ (forall t, t ∈ planTeardown p -> (gr2, t) ∈ dispatchedBeforeWait p)
  /\ (forall t, t ∈ planDelete p -> (gr1, t) ∈ dispatchedBeforeWait p)
  /\ (forall t, t ∈ planCreate p -> (gr1, t) ∈ dispatchedBeforeWait p)
  /\ (forall t, t ∈ planUpdateAdd p -> taskStage t = UpdateAdd).
Proof.
  intros p. destruct (planChanges_lists dryRun listing changes) as (u1 & H1 & H2 & H3 & H4).
  fold p in H1, H2, H3, H4. unfold dispatchedBeforeWait.
  split; [| split; [| split; [| split]]].
  - intros g t Hin. rewrite !elem_of_app in Hin.
    destruct Hin as [Hin | [Hin | Hin]];
      apply list_elem_of_In, in_map_iff in Hin as (t' & Heq & Hin);
      injection Heq as <- <-; apply list_elem_of_In in Hin.
    + rewrite H1 in Hin. apply teardownLoop_stage in Hin. rewrite Hin.
      split; [discriminate | tauto].
    + rewrite H2 in Hin. apply deleteLoop_stage in Hin. rewrite Hin.
      split; [discriminate | split; discriminate].
    + rewrite H3 in Hin. apply createLoop_stage in Hin. rewrite Hin.
      split; [discriminate | split; discriminate].
  - intros t Ht. rewrite !elem_of_app. left.
    apply list_elem_of_In, in_map, list_elem_of_In, Ht.
  - intros t Ht. rewrite !elem_of_app. right. left.
    apply list_elem_of_In, in_map, list_elem_of_In, Ht.
  - intros t Ht. rewrite !elem_of_app. right. right.
    apply list_elem_of_In, in_map, list_elem_of_In, Ht.
  - intros t Ht. rewrite H4 in Ht. now apply updateAddLoop_stage in Ht.
Qed.

(** In a live run, the first loop starts, for each updateNew entry with a
    zone and stale values, the deletion of exactly those values. *)
Lemma teardownLoop_task extractZone updateOld entries updated d :
  d ∈ entries ->
  extractZone (DNSName d) <> "" ->
  unexistingTargets d updateOld false <> [] ->
  exists t,
    t ∈ (teardownLoop false extractZone updateOld entries updated).2
    /\ taskCall t = DeleteRRSetRecord (extractZone (DNSName d)) (DNSName d) (RecordType d)
                      (unexistingTargets d updateOld false).
Proof.
  intros Hin Hz Hstale. revert updated.
  induction entries as [|d0 rest IH]; intros updated; [inversion Hin |].
  simpl.
  destruct (String.eqb_spec (extractZone (DNSName d0)) "") as [Hz0|Hz0].
  - apply elem_of_cons in Hin as [->|Hin]; [congruence | now apply IH].
  - destruct (planContents_live (fmtMsg "update old" d0) (fun content => content)
                (unexistingTargets d0 updateOld false) updated) as (u1 & logs & ->).
    rewrite map_id.
    destruct (teardownLoop false extractZone updateOld rest u1) as [[u2 logs'] tasks] eqn:E.
    apply elem_of_cons in Hin as [->|Hin].
    + destruct (unexistingTargets d0 updateOld false) as [|v vs] eqn:Ev; [congruence |].
      simpl. eexists. split; [left | reflexivity].
    + destruct (IH Hin u1) as (t & Ht & Hcall). rewrite E in Ht. simpl in Ht.
      exists t. split; [| exact Hcall].
      destruct (length (unexistingTargets d0 updateOld false) =? 0)%nat; simpl;
        [exact Ht | now right].
Qed.

Lemma codeWraps_spawn g t : codeWraps (spawn g t).
Proof. now exists (runCall (taskCall t)). Qed.

Lemma codeWraps_resume x req k resp :
  gCode x = Http req k -> codeWraps x -> codeWraps (resume x (k resp)).
Proof.
  intros Hc [m Hm]. rewrite Hc in Hm. destruct m as [a | req' k']; simpl in Hm.
  - discriminate.
  - injection Hm as -> ->. now exists (k' resp).
Qed.

Lemma codeWraps_finish x : codeWraps x -> codeWraps (finish x).
Proof. intros [m Hm]. now exists m. Qed.

Lemma codeWraps_error x e :
  codeWraps x -> gCode x = Return (Some e) ->
  exists e', e = Errorf (Join (taskErrMsg (gTask x)) "; ") e'.
Proof.
  intros [m Hm] Hc. rewrite Hc in Hm. destruct m as [a | req' k']; simpl in Hm.
  - injection Hm as Hm. destruct a as [e'|]; simpl in Hm; [| discriminate].
    injection Hm as ->. now exists e'.
  - discriminate.
Qed.

Section Wrapping.

Context {remote : Type}.
Variable serve : remote -> request -> response -> remote -> Prop.
Variable later : list task.

Lemma codeWraps_step (s s' : state remote) :
  step serve later s s' -> Forall codeWraps (stPool s) -> Forall codeWraps (stPool s').
Proof.
  intros Hstep Hall. inversion Hstep; subst; simpl in *; try exact Hall.
  - apply Forall_app. split; [exact Hall |]. constructor; [apply codeWraps_spawn | constructor].
  - apply Forall_app. split; [exact Hall |]. constructor; [apply codeWraps_spawn | constructor].
  - apply Forall_insert; [exact Hall |]. apply (codeWraps_resume x req k resp); [assumption |].
    rewrite Forall_forall in Hall. apply Hall, list_elem_of_lookup. now exists i.
  - apply Forall_insert; [exact Hall |]. apply codeWraps_finish.
    rewrite Forall_forall in Hall. apply Hall, list_elem_of_lookup. now exists i.
Qed.

Lemma codeWraps_reach (s0 s : state remote) :
  Forall codeWraps (stPool s0) -> rtc (step serve later) s0 s -> Forall codeWraps (stPool s).
Proof.
  intros H0 Hrun. induction Hrun as [s | s1 s2 s3 Hstep _ IH]; [exact H0 |].
  apply IH. now apply (codeWraps_step s1).
Qed.

(** [errOnce]: the first error reported to the teardown group stays. *)
Lemma first_error_stays (s s' : state remote) (e : error) :
  rtc (step serve later) s s' -> stErr2 s = Some e -> stErr2 s' = Some e.
Proof.
  intros Hrun. induction Hrun as [s | s1 s2 s3 Hstep _ IH]; [auto |].
  intros He. apply IH. inversion Hstep; subst; simpl in *; try assumption; try discriminate.
  destruct (isGroup (gGroup x) gr2); [now subst e2 | exact He].
Qed.

End Wrapping.

Lemma dispatched_elem pool g t :
  (g, t) ∈ dispatched pool <-> exists x, x ∈ pool /\ gGroup x = g /\ gTask x = t.
Proof.
  unfold dispatched. rewrite list_elem_of_In, in_map_iff. split.
  - intros (x & Heq & Hin). injection Heq as <- <-. exists x.
    split; [now apply list_elem_of_In | auto].
  - intros (x & Hin & <- & <-). exists x. split; [reflexivity | now apply list_elem_of_In].
Qed.

Lemma inGroup1_elem g t ts : (g, t) ∈ inGroup1 ts <-> g = gr1 /\ t ∈ ts.
Proof.
  unfold inGroup1. rewrite list_elem_of_In, in_map_iff. split.
  - intros (t' & Heq & Hin). injection Heq as <- <-. split; [reflexivity |].
    now apply list_elem_of_In.
  - intros [-> Hin]. exists t. split; [reflexivity | now apply list_elem_of_In].
Qed.

Lemma initial_invariants {remote : Type} dryRun listing changes (r : remote) :
  let p := planChanges dryRun listing changes in
  callerInv (dispatchedBeforeWait p) (planUpdateAdd p) (ApplyChanges dryRun listing changes r)
  /\ errorsInv (ApplyChanges dryRun listing changes r)
  /\ Forall codeWraps (stPool (ApplyChanges dryRun listing changes r)).
Proof.
  intros p. unfold callerInv, errorsInv, ApplyChanges. simpl. fold p.
  split; [| split; [split; intros e He; discriminate | constructor]].
  destruct (HasChanges changes); [reflexivity | now left].
Qed.

(** What every reachable state satisfies. *)
Lemma reaches_invariants {remote : Type}
    (serve : remote -> request -> response -> remote -> Prop)
    dryRun listing changes (r : remote) (s : state remote) :
  reaches serve dryRun listing changes r s ->
  let p := planChanges dryRun listing changes in
  callerInv (dispatchedBeforeWait p) (planUpdateAdd p) s
  /\ errorsInv s /\ Forall codeWraps (stPool s).
Proof.
  intros Hrun p. destruct (initial_invariants dryRun listing changes r) as (Hc & He & Hw).
  fold p in Hc. unfold reaches in Hrun. fold p in Hrun.
  destruct (invariants_reach serve _ _ _ s Hc He Hrun) as [Hc' He'].
  split; [exact Hc' | split; [exact He' |]].
  now apply (codeWraps_reach serve (planUpdateAdd p) _ s Hw).
Qed.

(** A goroutine of the fourth loop exists only past [gr2.Wait()]. *)
Lemma past_barrier {remote : Type} dryRun listing changes (s : state remote) x :
  let p := planChanges dryRun listing changes in
  callerInv (dispatchedBeforeWait p) (planUpdateAdd p) s ->
  x ∈ stPool s -> taskStage (gTask x) = UpdateAdd ->
  exists todo,
    dispatched (stPool s) ++ inGroup1 todo = dispatchedBeforeWait p ++ inGroup1 (planUpdateAdd p)
    /\ groupDone gr2 (stPool s) /\ stErr2 s = None.
Proof.
  intros p Hinv Hx Hstage.
  destruct (planChanges_stages dryRun listing changes) as (Hbefore & _).
  fold p in Hbefore.
  assert (Hnot : (gGroup x, gTask x) ∈ dispatchedBeforeWait p -> False).
  { intros Hin. apply Hbefore in Hin as [Hin _]. congruence. }
  assert (Hdisp : (gGroup x, gTask x) ∈ dispatched (stPool s)).
  { apply dispatched_elem. now exists x. }
  unfold callerInv in Hinv. destruct (stMain s) as [todo | todo | res].
  - exfalso. apply Hnot. rewrite <- Hinv. apply elem_of_app. now left.
  - exists todo. exact Hinv.
  - destruct Hinv as [[Hp _] | [[Hd _] | (Hd & Hg2 & _ & He & _)]].
    + rewrite Hp in Hx. inversion Hx.
    + exfalso. apply Hnot. now rewrite <- Hd.
    + exists []. unfold inGroup1 at 1. simpl. rewrite app_nil_r. auto.
Qed.

(** In a live run, each goroutine of the fourth loop adds the new values of
    an updateNew entry that has a zone. *)
Lemma updateAddLoop_task extractZone updateOld entries updated t :
  t ∈ (updateAddLoop false extractZone updateOld entries updated).2 ->
  exists c,
    c ∈ entries /\ extractZone (DNSName c) <> ""
    /\ taskCall t = AddZoneRRSet (extractZone (DNSName c)) (DNSName c) (RecordType c)
                      (map (newRecord (RecordType c)) (unexistingTargets c updateOld true))
                      (RecordTTL c).
Proof.
  revert updated. induction entries as [|c0 rest IH]; intros updated; simpl.
  - intros Hin. inversion Hin.
  - destruct (String.eqb_spec (extractZone (DNSName c0)) "") as [Hz0|Hz0].
    + intros Hin. destruct (IH _ Hin) as (c & Hc & Hrest). exists c. split; [now right | auto].
    + destruct (planContents_live (fmtMsg "update new" c0) (newRecord (RecordType c0))
                  (unexistingTargets c0 updateOld true) updated) as (u1 & logs & ->).
      specialize (IH u1).
      destruct (updateAddLoop false extractZone updateOld rest u1) as [[u2 logs'] tasks].
      simpl in IH.
      assert (Hrest : t ∈ tasks -> exists c,
                c ∈ c0 :: rest /\ extractZone (DNSName c) <> ""
                /\ taskCall t = AddZoneRRSet (extractZone (DNSName c)) (DNSName c)
                     (RecordType c)
                     (map (newRecord (RecordType c)) (unexistingTargets c updateOld true))
                     (RecordTTL c)).
      { intros Hin. destruct (IH Hin) as (c & Hc & Hcall). exists c.
        split; [now right | auto]. }
      destruct (length _ =? 0)%nat; simpl; [exact Hrest |].
      intros Hin. apply elem_of_cons in Hin as [->|Hin]; [| now apply Hrest].
      exists c0. split; [left | auto].
Qed.

(** C6. In a live run, whenever a goroutine of the fourth loop exists (the
    [AddZoneRRSet] call adding the new values of an updateNew entry has
    been dispatched), the caller has passed [gr2.Wait()]: every goroutine of
    the teardown group has returned, without error, and among them, for each
    updateNew entry with a zone and stale values, the [DeleteRRSetRecord]
    call that removes them. *)
Theorem teardown_completes_before_update_add {remote : Type}
    (serve : remote -> request -> response -> remote -> Prop)
    (listing : list Zone * option error) (changes : Changes) (r : remote)
    (s : state remote) (x : goroutine) :
  reaches serve false listing changes r s ->
  x ∈ stPool s ->
  taskStage (gTask x) = UpdateAdd ->
  let extractZone := zoneFromDNSNameGetter (GetDomainFilter listing) in
  (exists c,
     c ∈ UpdateNew changes /\ extractZone (DNSName c) <> ""
     /\ taskCall (gTask x)
        = AddZoneRRSet (extractZone (DNSName c)) (DNSName c) (RecordType c)
            (map (newRecord (RecordType c)) (unexistingTargets c (UpdateOld changes) true))
            (RecordTTL c))
  /\ groupDone gr2 (stPool s)
  /\ stErr2 s = None
  /\ (forall d, d ∈ UpdateNew changes ->
        extractZone (DNSName d) <> "" ->
        unexistingTargets d (UpdateOld changes) false <> [] ->
        exists y,
          y ∈ stPool s /\ gGroup y = gr2 /\ gDone y = true
          /\ taskCall (gTask y)
             = DeleteRRSetRecord (extractZone (DNSName d)) (DNSName d) (RecordType d)
                 (unexistingTargets d (UpdateOld changes) false)).
Proof.
  intros Hrun Hx Hstage extractZone.
  set (p := planChanges false listing changes).
  destruct (reaches_invariants serve false listing changes r s Hrun) as (Hinv & _ & _).
  fold p in Hinv.
  destruct (past_barrier false listing changes s x Hinv Hx Hstage)
    as (todo & Hdisp & Hdone & Herr). fold p in Hdisp.
  destruct (planChanges_stages false listing changes) as (Hbefore & Htear & _ & _ & _).
  fold p in Hbefore, Htear.
  destruct (planChanges_lists false listing changes) as (u1 & HT & _ & _ & HA).
  fold p extractZone in HT, HA.
  split; [| split; [exact Hdone | split; [exact Herr |]]].
  - assert (Hin : (gGroup x, gTask x) ∈ dispatchedBeforeWait p ++ inGroup1 (planUpdateAdd p)).
    { rewrite <- Hdisp. apply elem_of_app. left. apply dispatched_elem. now exists x. }
    apply elem_of_app in Hin as [Hin | Hin].
    + apply Hbefore in Hin as [Hin _]. congruence.
    + apply inGroup1_elem in Hin as [_ Hin]. rewrite HA in Hin.
      now apply updateAddLoop_task in Hin.
  - intros d Hd Hz Hstale.
    destruct (teardownLoop_task extractZone (UpdateOld changes) (UpdateNew changes) 0 d
                Hd Hz Hstale) as (t & Ht & Hcall).
    rewrite <- HT in Ht. apply Htear in Ht.
    assert (Hin : (gr2, t) ∈ dispatched (stPool s) ++ inGroup1 todo).
    { rewrite Hdisp. apply elem_of_app. now left. }
    apply elem_of_app in Hin as [Hin | Hin].
    + apply dispatched_elem in Hin as (y & Hy & Hg & Hty). exists y.
      split; [exact Hy |]. split; [exact Hg |]. split; [| now rewrite Hty].
      unfold groupDone in Hdone. rewrite Forall_forall in Hdone.
      apply (Hdone y Hy). now rewrite Hg.
    + apply inGroup1_elem in Hin as [Hin _]. discriminate.
Qed.

(** C2 (amended). Once a goroutine of the teardown group has returned an
    error, that first error, which wraps the failed call's error with the
    goroutine's joined "update old" messages, stays the group's error; no
    goroutine of the fourth loop is ever started and the caller never enters
    that loop; and when the caller returns, it returns that error wrapped
    with "gcore: apply changes", every goroutine of the delete and create
    loops having been started before. *)
Theorem teardown_failure_stops_update_add {remote : Type}
    (serve : remote -> request -> response -> remote -> Prop)
    (dryRun : bool) (listing : list Zone * option error) (changes : Changes)
    (r : remote) (s : state remote) (e : error) :
  reaches serve dryRun listing changes r s ->
  stErr2 s = Some e ->
  let p := planChanges dryRun listing changes in
  (exists x e',
     x ∈ stPool s /\ taskStage (gTask x) = Teardown /\ gDone x = true
     /\ gCode x = Return (Some e)
     /\ e = Errorf (Join (taskErrMsg (gTask x)) "; ") e')
  /\ (forall s', rtc (step serve (planUpdateAdd p)) s s' ->
        stErr2 s' = Some e
        /\ (forall x, x ∈ stPool s' -> taskStage (gTask x) <> UpdateAdd)
        /\ (forall todo, stMain s' <> BeforeWait1 todo)
        /\ (forall res, stMain s' = Returned res ->
              res = Some (applyError e)
              /\ forall t, t ∈ planDelete p \/ t ∈ planCreate p ->
                   exists x, x ∈ stPool s' /\ gGroup x = gr1 /\ gTask x = t)).
Proof.
  intros Hrun He p.
  destruct (planChanges_stages dryRun listing changes)
    as (Hbefore & _ & Hdel & Hcre & _).
  fold p in Hbefore, Hdel, Hcre.
  split.
  - destruct (reaches_invariants serve dryRun listing changes r s Hrun)
      as (Hinv & [_ Herr2] & Hwrap). fold p in Hinv.
    destruct (Herr2 e He) as (x & Hx & Hg & Hd & Hc).
    rewrite Forall_forall in Hwrap.
    destruct (codeWraps_error x e (Hwrap x Hx) Hc) as [e' He'].
    exists x, e'. repeat split; try assumption.
    assert (Hin : (gr2, gTask x) ∈ dispatchedBeforeWait p).
    { assert (Hdisp : (gr2, gTask x) ∈ dispatched (stPool s))
        by (apply dispatched_elem; now exists x).
      unfold callerInv in Hinv. destruct (stMain s) as [todo | todo | res].
      - rewrite <- Hinv. apply elem_of_app. now left.
      - destruct Hinv as (_ & _ & Hnone). congruence.
      - destruct Hinv as [[Hp _] | [[Hd' _] | (_ & _ & _ & Hnone & _)]].
        + rewrite Hp in Hx. inversion Hx.
        + now rewrite <- Hd'.
        + congruence. }
    apply Hbefore in Hin as [_ Hin]. now apply Hin.
  - intros s' Hrun'.
    assert (He' : stErr2 s' = Some e) by now apply (first_error_stays serve (planUpdateAdd p) s s').
    assert (Hreach : reaches serve dryRun listing changes r s').
    { unfold reaches in *. fold p in Hrun |- *. now apply rtc_trans with s. }
    destruct (reaches_invariants serve dryRun listing changes r s' Hreach) as (Hinv & _ & _).
    fold p in Hinv.
    split; [exact He' |]. split; [| split].
    + intros x Hx Hstage.
      destruct (past_barrier dryRun listing changes s' x Hinv Hx Hstage) as (_ & _ & _ & Hn).
      congruence.
    + intros todo Hmain. unfold callerInv in Hinv. rewrite Hmain in Hinv.
      destruct Hinv as (_ & _ & Hnone). congruence.
    + intros res Hmain. unfold callerInv in Hinv. rewrite Hmain in Hinv.
      destruct Hinv as [[Hp Hres] | [(Hd & e0 & He0 & Hres) | (_ & _ & _ & Hnone & _)]].
      * destruct (reaches_invariants serve dryRun listing changes r s' Hreach)
          as (_ & [_ Herr2] & _).
        destruct (Herr2 e He') as (x & Hx & _). rewrite Hp in Hx. inversion Hx.
      * rewrite He' in He0. injection He0 as <-. split; [exact Hres |].
        intros t Ht.
        assert (Hin : (gr1, t) ∈ dispatched (stPool s')).
        { rewrite Hd. destruct Ht as [Ht | Ht]; [now apply Hdel | now apply Hcre]. }
        apply dispatched_elem in Hin as (x & Hx & Hg & Htx). now exists x.
      * congruence.
Qed.

Lemma afterSchedule_reaches {remote : Type}
    (serveF : remote -> request -> response * remote) (later : list task)
    (schedule : list action) (s : state remote) :
  runSchedule serveF later schedule s <> None ->
  rtc (step (served serveF) later) s (afterSchedule serveF later schedule s).
Proof.
  intros Hrun. unfold afterSchedule.
  destruct (runSchedule serveF later schedule s) as [s'|] eqn:E; [| congruence].
  now apply (runSchedule_sound serveF later schedule).
Qed.

(** ** One resource of the remote *)

Lemma idealServe_entry (store store' : gmap uri RRSet) (req : request) (resp : response) :
  idealServe store req = (resp, store') ->
  entryServe (store !! requestURI req) req = (resp, store' !! requestURI req)
  /\ forall u, u <> requestURI req -> store' !! u = store !! u.
Proof.
  destruct req as [u | u body | u body | u]; simpl.
  - destruct (store !! u) as [rrSet|] eqn:E; intros Heq; injection Heq as <- <-;
      rewrite ?E; auto.
  - intros Heq; injection Heq as <- <-. rewrite lookup_insert_eq.
    split; [reflexivity |]. intros u' Hne. now rewrite lookup_insert_ne.
  - intros Heq; injection Heq as <- <-. rewrite lookup_insert_eq.
    split; [reflexivity |]. intros u' Hne. now rewrite lookup_insert_ne.
  - destruct (store !! u) as [rrSet|] eqn:E; intros Heq; injection Heq as <- <-.
    + rewrite lookup_delete_eq. split; [reflexivity |].
      intros u' Hne. now rewrite lookup_delete_ne.
    + rewrite E. auto.
Qed.

Lemma entryAfter_Return {A : Type} (a : A) entry : entryAfter (Return a) entry = entry.
Proof. reflexivity. Qed.

Lemma entryAfter_Http {A : Type} req (k : response -> client A) entry :
  entryAfter (Http req k) entry
  = entryAfter (k (entryServe entry req).1) (entryServe entry req).2.
Proof.
  unfold entryAfter. simpl. destruct (entryServe entry req) as [resp entry'].
  simpl. destruct (exec entryServe (k resp) entry') as [[a e] reqs]. reflexivity.
Qed.

Lemma entryAfter_bind {A B : Type} (m : client A) (f : A -> client B) entry :
  entryAfter (bind m f) entry
  = entryAfter (f (exec entryServe m entry).1.1) (entryAfter m entry).
Proof.
  unfold entryAfter. rewrite exec_bind.
  destruct (exec entryServe m entry) as [[a e] reqs]. simpl.
  destruct (exec entryServe (f a) e) as [[b e'] reqs']. reflexivity.
Qed.

Lemma entryAfter_taskBody t entry :
  entryAfter (taskBody t) entry = entryAfter (runCall (taskCall t)) entry.
Proof. unfold taskBody. now rewrite entryAfter_bind, entryAfter_Return. Qed.

Lemma onURI_bind {A B : Type} u (m : client A) (f : A -> client B) :
  onURI u m -> (forall a, onURI u (f a)) -> onURI u (bind m f).
Proof.
  intros Hm Hf. induction Hm as [a | req k Hreq _ IH]; simpl; [apply Hf |].
  constructor; [exact Hreq | exact IH].
Qed.

Lemma onURI_doDecode req : onURI (requestURI req) (doDecode req).
Proof.
  constructor; [reflexivity |]. intros [r | | e]; constructor.
Qed.

Lemma onURI_doNoDest req : onURI (requestURI req) (doNoDest req).
Proof.
  constructor; [reflexivity |]. intros [r | | e]; constructor.
Qed.

Lemma onURI_runCall c : onURI (callURI c) (runCall c).
Proof.
  destruct c as [zone name recordType contents | zone name recordType values ttl]; simpl.
  - unfold Client_DeleteRRSetRecord.
    apply onURI_bind.
    { unfold Client_RRSet. apply onURI_bind; [apply (onURI_doDecode (ReqGet _)) |].
      intros [r | e]; constructor. }
    intros [rrSet | err].
    + destruct (length (Records rrSet) =? 0)%nat; [constructor |].
      destruct (length (keptRecords contents (Records rrSet)) =? 0)%nat.
      * apply onURI_bind; [| intros a; constructor].
        unfold Client_DeleteRRSet. apply onURI_bind; [apply (onURI_doNoDest (ReqDelete _)) |].
        intros [e|]; [destruct (isNotFound e) |]; constructor.
      * apply onURI_bind; [| intros a; constructor].
        apply (onURI_doNoDest (ReqPut _ _)).
    + destruct (isNotFound err); constructor.
  - unfold Client_AddZoneRRSet.
    apply onURI_bind.
    { unfold Client_RRSet. apply onURI_bind; [apply (onURI_doDecode (ReqGet _)) |].
      intros [r | e]; constructor. }
    intros [records | err].
    + destruct (0 <? length (Records records))%nat.
      * apply (onURI_doNoDest (ReqPut _ _)).
      * apply (onURI_doNoDest (ReqPost _ _)).
    + apply (onURI_doNoDest (ReqPost _ _)).
Qed.

Lemma onURI_taskBody t : onURI (taskURI t) (taskBody t).
Proof.
  unfold taskBody. apply onURI_bind; [apply onURI_runCall | intros a; constructor].
Qed.






Lemma afterTasks_app u ts1 ts2 entry :
  afterTasks u (ts1 ++ ts2) entry = afterTasks u ts2 (afterTasks u ts1 entry).
Proof. revert entry. induction ts1 as [|t rest IH]; intros entry; simpl; [reflexivity | apply IH]. Qed.

Lemma afterTasks_other u ts entry :
  (forall t, t ∈ ts -> taskURI t <> u) -> afterTasks u ts entry = entry.
Proof.
  revert entry. induction ts as [|t rest IH]; intros entry H; simpl; [reflexivity |].
  rewrite decide_False by (apply H; left). apply IH. intros t' Ht'. apply H. now right.
Qed.

Lemma no_error_before {remote : Type}
    (serve : remote -> request -> response -> remote -> Prop) (later : list task)
    (s s' : state remote) :
  step serve later s s' -> stErr2 s' = None -> stErr2 s = None.
Proof.
  intros Hstep He. inversion Hstep; subst; simpl in *; try assumption; try discriminate.
  destruct (isGroup (gGroup x) gr2); [| exact He]. now destruct e2.
Qed.

Lemma localInv_step {remote : Type}
    (serve : remote -> request -> response -> remote -> Prop) (later : list task)
    (s s' : state remote) :
  step serve later s s' -> localInv s -> localInv s'.
Proof.
  unfold localInv. intros Hstep Hall. inversion Hstep; subst; simpl in *; try exact Hall.
  - apply Forall_app. split; [exact Hall |].
    constructor; [apply onURI_taskBody | constructor].
  - apply Forall_app. split; [exact Hall |].
    constructor; [apply onURI_taskBody | constructor].
  - apply Forall_insert; [exact Hall |]. simpl.
    rewrite Forall_forall in Hall.
    assert (Hx : onURI (taskURI (gTask x)) (gCode x))
      by (apply Hall, list_elem_of_lookup; now exists i).
    rewrite H1 in Hx. inversion Hx; subst. auto.
  - apply Forall_insert; [exact Hall |]. simpl.
    rewrite Forall_forall in Hall. apply Hall, list_elem_of_lookup. now exists i.
Qed.

Lemma soloInv_step {remote : Type}
    (serve : remote -> request -> response -> remote -> Prop) (later : list task)
    (s s' : state remote) :
  step serve later s s' -> dispatchFresh s -> soloInv s -> soloInv s'.
Proof.
  unfold soloInv, dispatchFresh.
  assert (Hspawn : forall pool g t,
            freshFor t pool ->
            (forall i j x y, pool !! i = Some x -> pool !! j = Some y ->
               gDone x = false -> gDone y = false ->
               taskURI (gTask x) = taskURI (gTask y) -> i = j) ->
            forall i j x y, (pool ++ [spawn g t]) !! i = Some x ->
              (pool ++ [spawn g t]) !! j = Some y ->
              gDone x = false -> gDone y = false ->
              taskURI (gTask x) = taskURI (gTask y) -> i = j).
  { intros pool g t Hfresh Hsolo i j x y Hx Hy Hdx Hdy Hkey.
    apply lookup_app_Some in Hx as [Hx | [Hix Hx]];
      apply lookup_app_Some in Hy as [Hy | [Hjy Hy]].
    - now apply (Hsolo i j x y).
    - apply list_lookup_singleton_Some in Hy as [_ <-]. simpl in Hkey.
      exfalso. apply (Hfresh x); [apply list_elem_of_lookup; now exists i | | ]; assumption.
    - apply list_lookup_singleton_Some in Hx as [_ <-]. simpl in Hkey.
      exfalso. apply (Hfresh y); [apply list_elem_of_lookup; now exists j | | ]; auto.
    - apply list_lookup_singleton_Some in Hx as [Hi _].
      apply list_lookup_singleton_Some in Hy as [Hj _]. lia. }
  assert (Hins : forall (pool : list goroutine) (i : nat) x x',
            pool !! i = Some x -> gTask x' = gTask x ->
            (gDone x' = false -> gDone x = false) ->
            (forall i j x y, pool !! i = Some x -> pool !! j = Some y ->
               gDone x = false -> gDone y = false ->
               taskURI (gTask x) = taskURI (gTask y) -> i = j) ->
            forall (a b : nat) y z, <[i := x']> pool !! a = Some y -> <[i := x']> pool !! b = Some z ->
              gDone y = false -> gDone z = false ->
              taskURI (gTask y) = taskURI (gTask z) -> a = b).
  { intros pool i x x' Hx Ht Hd Hsolo a b y z Hy Hz Hdy Hdz Hkey.
    assert (Hlook : forall (c : nat) w, <[i := x']> pool !! c = Some w -> gDone w = false ->
              exists w', pool !! c = Some w' /\ gDone w' = false /\ gTask w' = gTask w).
    { intros c w Hw Hdw. destruct (decide (i = c)) as [<-|Hne].
      - rewrite list_lookup_insert_eq in Hw by (now apply lookup_lt_Some in Hx).
        injection Hw as <-. exists x. auto.
      - rewrite list_lookup_insert_ne in Hw by assumption. exists w. auto. }
    destruct (Hlook a y Hy Hdy) as (y' & Hy' & Hdy' & Hty).
    destruct (Hlook b z Hz Hdz) as (z' & Hz' & Hdz' & Htz).
    apply (Hsolo a b y' z'); try assumption. now rewrite Hty, Htz. }
  intros Hstep Hfresh Hsolo. inversion Hstep; subst; simpl in *; try exact Hsolo.
  - now apply Hspawn.
  - now apply Hspawn.
  - apply (Hins pool i x); auto.
  - apply (Hins pool i x); auto.
Qed.

Lemma entriesInv_step (final : uri -> option RRSet) (later : list task)
    (s s' : state (gmap uri RRSet)) :
  step (served idealServe) later s s' ->
  dispatchFresh s -> soloInv s -> localInv s ->
  entriesInv final later s -> entriesInv final later s'.
Proof.
  intros Hstep Hfresh Hsolo Hlocal Hinv Herr'.
  pose proof (no_error_before _ _ _ _ Hstep Herr') as Herr.
  destruct (Hinv Herr) as [E1 E2]. clear Hinv.
  assert (Hspawn : forall pool g t pm (r : gmap uri RRSet),
            freshFor t pool ->
            (forall (i : nat) x, pool !! i = Some x -> gDone x = false ->
               afterTasks (taskURI (gTask x)) (t :: pm)
                 (entryAfter (gCode x) (r !! taskURI (gTask x)))
               = final (taskURI (gTask x))) ->
            (forall u, (forall x, x ∈ pool -> taskURI (gTask x) = u -> gDone x = true) ->
               afterTasks u (t :: pm) (r !! u) = final u) ->
            (forall (i : nat) x, (pool ++ [spawn g t]) !! i = Some x -> gDone x = false ->
               afterTasks (taskURI (gTask x)) pm
                 (entryAfter (gCode x) (r !! taskURI (gTask x)))
               = final (taskURI (gTask x)))
            /\ (forall u, (forall x, x ∈ pool ++ [spawn g t] -> taskURI (gTask x) = u ->
                             gDone x = true) ->
                  afterTasks u pm (r !! u) = final u)).
  { intros pool g t pm r Hf H1 H2. split.
    - intros i x Hx Hd. apply lookup_app_Some in Hx as [Hx | [_ Hx]].
      + specialize (H1 i x Hx Hd). simpl in H1.
        rewrite decide_False in H1; [exact H1 |].
        intros Heq. apply (Hf x); [apply list_elem_of_lookup; now exists i | | ]; auto.
      + apply list_lookup_singleton_Some in Hx as [_ <-]. simpl.
        specialize (H2 (taskURI t)). simpl in H2.
        rewrite decide_True in H2 by reflexivity. apply H2.
        intros y Hy Hkey. destruct (gDone y) eqn:Hdy; [reflexivity |].
        exfalso. now apply (Hf y).
    - intros u Hall.
      assert (Hne : taskURI t <> u).
      { intros Heq. assert (Hd : gDone (spawn g t) = true).
        { apply Hall; [| exact Heq]. apply elem_of_app. right. left. }
        discriminate Hd. }
      specialize (H2 u). simpl in H2. rewrite decide_False in H2 by exact Hne.
      apply H2. intros x Hx. apply Hall, elem_of_app. now left. }
  unfold dispatchFresh in Hfresh.
  inversion Hstep; subst; simpl in *.
  - apply (Hspawn pool g t); assumption.
  - discriminate.
  - split; assumption.
  - apply (Hspawn pool gr1 t); assumption.
  - split; assumption.
  - unfold served in H2.
    destruct (idealServe_entry r r' req resp H2) as [Hentry Hother].
    assert (Hreq : requestURI req = taskURI (gTask x)).
    { unfold localInv in Hlocal. simpl in Hlocal. rewrite Forall_forall in Hlocal.
      assert (Hx : onURI (taskURI (gTask x)) (gCode x))
        by (apply Hlocal, list_elem_of_lookup; now exists i).
      rewrite H1 in Hx. now inversion Hx. }
    rewrite Hreq in Hentry, Hother.
    split.
    + intros j y Hy Hd. destruct (decide (i = j)) as [<-|Hne].
      * rewrite list_lookup_insert_eq in Hy by (now apply lookup_lt_Some in H).
        injection Hy as <-. simpl.
        specialize (E1 i x H H0). rewrite H1, entryAfter_Http, Hentry in E1. exact E1.
      * rewrite list_lookup_insert_ne in Hy by assumption.
        rewrite Hother; [now apply (E1 j y) |].
        intros Heq. apply Hne. apply (Hsolo i j x y); auto.
    + intros u Hall.
      assert (Hne : u <> taskURI (gTask x)).
      { intros ->. assert (Hd : gDone (resume x (k resp)) = true).
        { apply Hall; [| reflexivity]. apply list_elem_of_lookup. exists i.
          apply list_lookup_insert_eq. now apply lookup_lt_Some in H. }
        simpl in Hd. congruence. }
      rewrite (Hother u Hne). apply E2. intros y Hy Hkey.
      apply list_elem_of_lookup in Hy as [j Hy].
      destruct (decide (i = j)) as [<-|Hij].
      * rewrite H in Hy. injection Hy as <-. congruence.
      * apply Hall; [| exact Hkey]. apply list_elem_of_lookup. exists j.
        now rewrite list_lookup_insert_ne.
  - assert (Herr2 : e2 = None).
    { destruct (isGroup (gGroup x) gr2); [| exact Herr]. exact Herr. }
    split.
    + intros j y Hy Hd. destruct (decide (i = j)) as [<-|Hne].
      * rewrite list_lookup_insert_eq in Hy by (now apply lookup_lt_Some in H).
        injection Hy as <-. discriminate.
      * rewrite list_lookup_insert_ne in Hy by assumption. now apply (E1 j y).
    + intros u Hall. destruct (decide (taskURI (gTask x) = u)) as [<-|Hne].
      * specialize (E1 i x H H0). rewrite H1, entryAfter_Return in E1. exact E1.
      * apply E2. intros y Hy Hkey. apply list_elem_of_lookup in Hy as [j Hy].
        destruct (decide (i = j)) as [<-|Hij].
        -- rewrite H in Hy. injection Hy as <-. congruence.
        -- apply Hall; [| exact Hkey]. apply list_elem_of_lookup. exists j.
           now rewrite list_lookup_insert_ne.
Qed.

Lemma group1Tasks_app ds1 ds2 : group1Tasks (ds1 ++ ds2) = group1Tasks ds1 ++ group1Tasks ds2.
Proof. unfold group1Tasks. now rewrite filter_app, fmap_app. Qed.

Lemma group1Tasks_inGroup1 ts : group1Tasks (inGroup1 ts) = ts.
Proof.
  unfold group1Tasks, inGroup1. induction ts as [|t rest IH]; [reflexivity |].
  change (map (fun t => (gr1, t)) (t :: rest)) with ((gr1, t) :: inGroup1 rest).
  rewrite filter_cons_True by reflexivity. unfold inGroup1. rewrite fmap_cons. simpl.
  now rewrite IH.
Qed.

Lemma group1Tasks_elem ds t : t ∈ group1Tasks ds <-> (gr1, t) ∈ ds.
Proof.
  unfold group1Tasks. rewrite list_elem_of_fmap. split.
  - intros ([g t'] & -> & Hin). apply list_elem_of_filter in Hin as [Hg Hin].
    simpl in *. apply isGroup_eq in Hg. now subst g.
  - intros Hin. exists (gr1, t). split; [reflexivity |].
    apply list_elem_of_filter. split; [reflexivity | exact Hin].
Qed.

Lemma dispatched_keys pool x :
  x ∈ pool -> taskURI (gTask x) ∈ (fun d => taskURI (snd d)) <$> dispatched pool.
Proof.
  intros Hx. apply list_elem_of_fmap. exists (gGroup x, gTask x).
  split; [reflexivity |]. apply dispatched_elem. now exists x.
Qed.

Lemma dispatchFresh_of_plan {remote : Type} (before : list (group * task))
    (later : list task) (s : state remote) :
  NoDup ((fun d => taskURI (snd d)) <$> before) ->
  NoDup (taskURI <$> (group1Tasks before ++ later)) ->
  callerInv before later s -> dispatchFresh s.
Proof.
  intros K1 K2 Hinv. unfold dispatchFresh, callerInv in *.
  destruct (stMain s) as [[|[g t] todo] | [|t todo] | res]; try exact I.
  - intros x Hx _ Hkey. rewrite <- Hinv, fmap_app in K1.
    apply NoDup_app in K1 as (_ & Hdisj & _).
    apply (Hdisj (taskURI t)); [rewrite <- Hkey; now apply dispatched_keys | left].
  - destruct Hinv as (Hd & Hdone & _). intros x Hx Hrun Hkey.
    assert (Hg : gGroup x = gr1).
    { apply list_elem_of_lookup in Hx as [i Hx].
      pose proof (groupDone_running gr2 (stPool s) i x Hdone Hx Hrun) as Hg.
      destruct (gGroup x); [reflexivity | discriminate]. }
    assert (Heq : group1Tasks (dispatched (stPool s)) ++ t :: todo
                  = group1Tasks before ++ later).
    { rewrite <- (group1Tasks_inGroup1 (t :: todo)), <- (group1Tasks_inGroup1 later),
        <- !group1Tasks_app. now rewrite Hd. }
    rewrite <- Heq, fmap_app in K2. apply NoDup_app in K2 as (_ & Hdisj & _).
    apply (Hdisj (taskURI t)); [| left].
    rewrite <- Hkey. apply list_elem_of_fmap. exists (gTask x). split; [reflexivity |].
    apply group1Tasks_elem, dispatched_elem. now exists x.
Qed.

(** On the remote that answers every request, the content of every resource
    follows the plan: whatever the interleaving, when [ApplyChanges] has
    returned nil each resource is what the closures working on it make of
    it when run one after the other in the order of the plan. *)
Lemma returned_remote (dryRun : bool) (listing : list Zone * option error)
    (changes : Changes) (store : gmap uri RRSet)
    (s : state (gmap uri RRSet)) :
  let p := planChanges dryRun listing changes in
  HasChanges changes = true ->
  NoDup ((fun d => taskURI (snd d)) <$> dispatchedBeforeWait p) ->
  NoDup (taskURI <$> (group1Tasks (dispatchedBeforeWait p) ++ planUpdateAdd p)) ->
  reaches (served idealServe) dryRun listing changes store s ->
  stMain s = Returned None ->
  forall u, stRemote s !! u
            = afterTasks u ((snd <$> dispatchedBeforeWait p) ++ planUpdateAdd p) (store !! u).
Proof.
  intros p Hhas K1 K2 Hrun Hmain u.
  set (final := fun u => afterTasks u ((snd <$> dispatchedBeforeWait p) ++ planUpdateAdd p)
                          (store !! u)).
  assert (Hall : soloInv s /\ localInv s /\ entriesInv final (planUpdateAdd p) s).
  { unfold reaches in Hrun. fold p in Hrun.
    pattern s. eapply rtc_ind_r; [| | exact Hrun].
    - unfold soloInv, localInv, entriesInv, ApplyChanges. simpl. rewrite Hhas. fold p.
      split; [intros i j x y Hx; rewrite lookup_nil in Hx; discriminate |].
      split; [constructor |]. intros _. split.
      + intros i x Hx. rewrite lookup_nil in Hx. discriminate.
      + intros u' _. reflexivity.
    - intros s1 s2 Hrun1 Hstep (Hsolo & Hlocal & Hent).
      assert (Hfresh : dispatchFresh s1).
      { apply (dispatchFresh_of_plan (dispatchedBeforeWait p) (planUpdateAdd p)); try assumption.
        apply (reaches_invariants (served idealServe) dryRun listing changes store s1 Hrun1). }
      split; [now apply (soloInv_step (served idealServe) (planUpdateAdd p) s1) |].
      split; [now apply (localInv_step (served idealServe) (planUpdateAdd p) s1) |].
      now apply (entriesInv_step final (planUpdateAdd p) s1). }
  destruct Hall as (_ & _ & Hent).
  destruct (reaches_invariants (served idealServe) dryRun listing changes store s Hrun)
    as (Hinv & [_ Herr2] & _). fold p in Hinv.
  unfold callerInv in Hinv. rewrite Hmain in Hinv.
  assert (Hdone : (forall x, x ∈ stPool s -> gDone x = true) /\ stErr2 s = None).
  { destruct Hinv as [[Hp _] | [(_ & e & _ & He) | (_ & Hg2 & Hg1 & Hnone & _)]].
    - split; [intros x Hx; rewrite Hp in Hx; inversion Hx |].
      destruct (stErr2 s) as [e|] eqn:E; [| reflexivity].
      destruct (Herr2 e eq_refl) as (x & Hx & _). rewrite Hp in Hx. inversion Hx.
    - discriminate.
    - split; [| exact Hnone]. intros x Hx.
      unfold groupDone in Hg1, Hg2. rewrite Forall_forall in Hg1, Hg2.
      destruct (gGroup x) eqn:Eg; [apply (Hg1 x Hx) | apply (Hg2 x Hx)];
        now rewrite Eg. }
  destruct Hdone as [Hdone Hnone].
  destruct (Hent Hnone) as [_ E2]. specialize (E2 u). rewrite Hmain in E2. simpl in E2.
  apply E2. intros x Hx _. now apply Hdone.
Qed.

(** ** The plan of a live run, entry by entry *)

Lemma teardownLoop_live extractZone updateOld entries updated :
  (teardownLoop false extractZone updateOld entries updated).2
  = omap (teardownTask extractZone updateOld) entries.
Proof.
  revert updated. induction entries as [|d rest IH]; intros updated; [reflexivity |].
  simpl. unfold teardownTask at 1, hasZone.
  destruct (String.eqb (extractZone (DNSName d)) ""); simpl; [apply IH |].
  destruct (planContents_live (fmtMsg "update old" d) (fun content => content)
              (unexistingTargets d updateOld false) updated) as (u1 & logs & ->).
  rewrite map_id. specialize (IH u1).
  destruct (teardownLoop false extractZone updateOld rest u1) as [[u2 logs'] tasks].
  simpl in IH. destruct (length (unexistingTargets d updateOld false) =? 0)%nat; simpl;
    now rewrite IH.
Qed.

Lemma deleteLoop_live extractZone entries deleted :
  (deleteLoop false extractZone entries deleted).2 = omap (deleteTask extractZone) entries.
Proof.
  revert deleted. induction entries as [|d rest IH]; intros deleted; [reflexivity |].
  simpl. unfold deleteTask at 1, hasZone.
  destruct (String.eqb (extractZone (DNSName d)) ""); simpl; [apply IH |].
  destruct (planContents_live (fmtMsg "delete" d) (fun content => content)
              (Targets d) deleted) as (u1 & logs & ->).
  rewrite map_id. specialize (IH u1).
  destruct (deleteLoop false extractZone rest u1) as [[u2 logs'] tasks].
  simpl in *. now rewrite IH.
Qed.

Lemma createLoop_live extractZone entries created :
  (createLoop false extractZone entries created).2 = omap (createTask extractZone) entries.
Proof.
  revert created. induction entries as [|c rest IH]; intros created; [reflexivity |].
  simpl. unfold createTask at 1, hasZone.
  destruct (String.eqb (extractZone (DNSName c)) ""); simpl; [apply IH |].
  destruct (String.eqb (RecordType c) "TXT"); simpl; [apply IH |].
  destruct (planContents_live (fmtMsg "create" c) (newRecord (RecordType c))
              (Targets c) created) as (u1 & logs & ->).
  specialize (IH u1).
  destruct (createLoop false extractZone rest u1) as [[u2 logs'] tasks].
  simpl in *. now rewrite IH.
Qed.

Lemma updateAddLoop_live extractZone updateOld entries updated :
  (updateAddLoop false extractZone updateOld entries updated).2
  = omap (updateAddTask extractZone updateOld) entries.
Proof.
  revert updated. induction entries as [|c rest IH]; intros updated; [reflexivity |].
  simpl. unfold updateAddTask at 1, hasZone.
  destruct (String.eqb (extractZone (DNSName c)) ""); simpl; [apply IH |].
  destruct (planContents_live (fmtMsg "update new" c) (newRecord (RecordType c))
              (unexistingTargets c updateOld true) updated) as (u1 & logs & ->).
  rewrite length_map. specialize (IH u1).
  destruct (updateAddLoop false extractZone updateOld rest u1) as [[u2 logs'] tasks].
  simpl in IH. destruct (length (unexistingTargets c updateOld true) =? 0)%nat; simpl;
    now rewrite IH.
Qed.

Lemma atEntry_teardown extractZone updateOld :
  atEntry extractZone (teardownTask extractZone updateOld).
Proof.
  intros e t. unfold teardownTask.
  destruct (hasZone extractZone e && _); [| discriminate]. now intros [= <-].
Qed.

Lemma atEntry_delete extractZone : atEntry extractZone (deleteTask extractZone).
Proof.
  intros e t. unfold deleteTask.
  destruct (hasZone extractZone e); [| discriminate]. now intros [= <-].
Qed.

Lemma atEntry_create extractZone : atEntry extractZone (createTask extractZone).
Proof.
  intros e t. unfold createTask.
  destruct (hasZone extractZone e && _); [| discriminate]. now intros [= <-].
Qed.

Lemma atEntry_updateAdd extractZone updateOld :
  atEntry extractZone (updateAddTask extractZone updateOld).
Proof.
  intros e t. unfold updateAddTask.
  destruct (hasZone extractZone e && _); [| discriminate]. now intros [= <-].
Qed.

Lemma omap_keys_sublist extractZone f (entries : list Endpoint) :
  atEntry extractZone f ->
  (taskURI <$> omap f entries) `sublist_of` (endpointURI extractZone <$> entries).
Proof.
  intros Hf. induction entries as [|e rest IH]; [constructor |].
  simpl. destruct (f e) as [t|] eqn:E; simpl.
  - rewrite (Hf e t E). now constructor.
  - now constructor.
Qed.

Lemma omap_keys_elem extractZone f (entries : list Endpoint) t :
  atEntry extractZone f -> t ∈ omap f entries ->
  taskURI t ∈ endpointURI extractZone <$> entries.
Proof.
  intros Hf Ht. apply list_elem_of_omap in Ht as (e & He & Hfe).
  rewrite (Hf e t Hfe). apply list_elem_of_fmap. now exists e.
Qed.

Lemma afterTasks_omap_other extractZone f (entries : list Endpoint) u entry :
  atEntry extractZone f ->
  u ∉ endpointURI extractZone <$> entries ->
  afterTasks u (omap f entries) entry = entry.
Proof.
  intros Hf Hu. apply afterTasks_other. intros t Ht <-.
  apply Hu. now apply (omap_keys_elem extractZone f).
Qed.

Lemma afterTasks_omap_entry extractZone f (entries : list Endpoint) d entry :
  atEntry extractZone f ->
  NoDup (endpointURI extractZone <$> entries) ->
  d ∈ entries ->
  afterTasks (endpointURI extractZone d) (omap f entries) entry
  = match f d with
    | Some t => entryAfter (taskBody t) entry
    | None => entry
    end.
Proof.
  intros Hf. revert entry. induction entries as [|e rest IH]; intros entry Hnd Hd.
  - inversion Hd.
  - rewrite fmap_cons in Hnd. apply NoDup_cons in Hnd as [Hnot Hnd].
    apply elem_of_cons in Hd as [->|Hd].
    + simpl. destruct (f e) as [t|] eqn:E.
      * simpl. rewrite decide_True by (now apply Hf).
        now apply (afterTasks_omap_other extractZone).
      * now apply (afterTasks_omap_other extractZone).
    + assert (Hne : endpointURI extractZone e <> endpointURI extractZone d).
      { intros Heq. apply Hnot. rewrite Heq. apply list_elem_of_fmap. now exists d. }
      simpl. destruct (f e) as [t|] eqn:E.
      * simpl. rewrite decide_False by (rewrite (Hf e t E); exact Hne). now apply IH.
      * now apply IH.
Qed.

Lemma snd_tagged (g : group) (ts : list task) : snd <$> map (fun t => (g, t)) ts = ts.
Proof.
  induction ts as [|t rest IH]; [reflexivity |].
  change (t :: (snd <$> map (fun t => (g, t)) rest) = t :: rest). now rewrite IH.
Qed.

Lemma dispatchedBeforeWait_tasks p :
  snd <$> dispatchedBeforeWait p = planTeardown p ++ planDelete p ++ planCreate p.
Proof. unfold dispatchedBeforeWait. now rewrite !fmap_app, !snd_tagged. Qed.

Lemma dispatchedBeforeWait_keys p :
  (fun d => taskURI (snd d)) <$> dispatchedBeforeWait p
  = taskURI <$> (planTeardown p ++ planDelete p ++ planCreate p).
Proof.
  rewrite <- dispatchedBeforeWait_tasks, <- list_fmap_compose. reflexivity.
Qed.

Lemma group1Tasks_gr2 ts : group1Tasks (map (fun t => (gr2, t)) ts) = [].
Proof.
  unfold group1Tasks. induction ts as [|t rest IH]; [reflexivity |].
  simpl. rewrite filter_cons_False by (simpl; discriminate). exact IH.
Qed.

Lemma dispatchedBeforeWait_group1 p :
  group1Tasks (dispatchedBeforeWait p) = planDelete p ++ planCreate p.
Proof.
  unfold dispatchedBeforeWait. rewrite !group1Tasks_app, group1Tasks_gr2.
  change (map (fun t => (gr1, t)) (planDelete p)) with (inGroup1 (planDelete p)).
  change (map (fun t => (gr1, t)) (planCreate p)) with (inGroup1 (planCreate p)).
  now rewrite !group1Tasks_inGroup1.
Qed.

(** The four lists of a live plan, entry by entry. *)
Lemma planChanges_live listing changes :
  let extractZone := zoneFromDNSNameGetter (GetDomainFilter listing) in
  let p := planChanges false listing changes in
  planTeardown p = omap (teardownTask extractZone (UpdateOld changes)) (UpdateNew changes)
  /\ planDelete p = omap (deleteTask extractZone) (Delete changes)
  /\ planCreate p = omap (createTask extractZone) (Create changes)
  /\ planUpdateAdd p
     = omap (updateAddTask extractZone (UpdateOld changes)) (UpdateNew changes).
Proof.
  intros extractZone p.
  destruct (planChanges_lists false listing changes) as (u1 & H1 & H2 & H3 & H4).
  fold extractZone p in H1, H2, H3, H4.
  rewrite H1, H2, H3, H4.
  now rewrite teardownLoop_live, deleteLoop_live, createLoop_live, updateAddLoop_live.
Qed.

(** Distinct resources across the entries give distinct resources across
    the goroutines that can run at the same time. *)
Lemma plan_keys_distinct listing changes :
  let extractZone := zoneFromDNSNameGetter (GetDomainFilter listing) in
  let p := planChanges false listing changes in
  NoDup (endpointURI extractZone
           <$> (UpdateNew changes ++ Delete changes ++ Create changes)) ->
  NoDup ((fun d => taskURI (snd d)) <$> dispatchedBeforeWait p)
  /\ NoDup (taskURI <$> (group1Tasks (dispatchedBeforeWait p) ++ planUpdateAdd p)).
Proof.
  intros extractZone p Hnd.
  destruct (planChanges_live listing changes) as (HT & HD & HC & HA).
  fold extractZone p in HT, HD, HC, HA.
  pose proof (omap_keys_sublist extractZone _ (UpdateNew changes)
                (atEntry_teardown extractZone (UpdateOld changes))) as ST.
  pose proof (omap_keys_sublist extractZone _ (Delete changes)
                (atEntry_delete extractZone)) as SD.
  pose proof (omap_keys_sublist extractZone _ (Create changes)
                (atEntry_create extractZone)) as SC.
  pose proof (omap_keys_sublist extractZone _ (UpdateNew changes)
                (atEntry_updateAdd extractZone (UpdateOld changes))) as SA.
  split.
  - rewrite dispatchedBeforeWait_keys, HT, HD, HC, !fmap_app.
    apply (sublist_NoDup _ _ Hnd). rewrite !fmap_app.
    apply sublist_app; [exact ST | apply sublist_app; [exact SD | exact SC]].
  - rewrite dispatchedBeforeWait_group1, HD, HC, HA, !fmap_app.
    assert (Hperm : NoDup (endpointURI extractZone
                             <$> ((Delete changes ++ Create changes) ++ UpdateNew changes))).
    { assert (P : (Delete changes ++ Create changes) ++ UpdateNew changes
                  ≡ₚ UpdateNew changes ++ Delete changes ++ Create changes)
        by apply Permutation_app_comm.
      now rewrite P. }
    apply (sublist_NoDup _ _ Hperm). rewrite !fmap_app, <- !app_assoc.
    apply sublist_app; [exact SD | apply sublist_app; [exact SC | exact SA]].
Qed.

(** ** What a live run leaves on a remote that answers every request *)

Section LiveRun.

Variable listing : list Zone * option error.
Variable changes : Changes.
Variable store : gmap uri RRSet.
Variable s : state (gmap uri RRSet).

Let extractZone := zoneFromDNSNameGetter (GetDomainFilter listing).

Hypothesis Hhas : HasChanges changes = true.
Hypothesis Hkeys :
  NoDup (endpointURI extractZone <$> (UpdateNew changes ++ Delete changes ++ Create changes)).
Hypothesis Hrun : reaches (served idealServe) false listing changes store s.
Hypothesis Hret : stMain s = Returned None.

Lemma live_remote u :
  stRemote s !! u
  = afterTasks u (omap (updateAddTask extractZone (UpdateOld changes)) (UpdateNew changes))
      (afterTasks u (omap (createTask extractZone) (Create changes))
        (afterTasks u (omap (deleteTask extractZone) (Delete changes))
          (afterTasks u (omap (teardownTask extractZone (UpdateOld changes))
                           (UpdateNew changes))
            (store !! u)))).
Proof.
  destruct (plan_keys_distinct listing changes Hkeys) as [K1 K2].
  rewrite (returned_remote false listing changes store s Hhas K1 K2 Hrun Hret u).
  destruct (planChanges_live listing changes) as (HT & HD & HC & HA).
  fold extractZone in HT, HD, HC, HA.
  rewrite dispatchedBeforeWait_tasks, HT, HD, HC, HA.
  now rewrite !afterTasks_app.
Qed.

Lemma keys_split :
  NoDup (endpointURI extractZone <$> UpdateNew changes)
  /\ NoDup (endpointURI extractZone <$> Delete changes)
  /\ NoDup (endpointURI extractZone <$> Create changes)
  /\ (forall u, u ∈ (endpointURI extractZone <$> UpdateNew changes) ->
        (u ∉ (endpointURI extractZone <$> Delete changes))
        /\ (u ∉ (endpointURI extractZone <$> Create changes)))
  /\ (forall u, u ∈ (endpointURI extractZone <$> Delete changes) ->
        u ∉ (endpointURI extractZone <$> Create changes)).
Proof.
  pose proof Hkeys as H0. rewrite !fmap_app in H0.
  apply NoDup_app in H0 as (HU & HUx & H0).
  apply NoDup_app in H0 as (HD & HDx & HC).
  split; [exact HU |]. split; [exact HD |]. split; [exact HC |]. split.
  - intros u Hu. split; intros Hin.
    + apply (HUx u); [assumption | apply elem_of_app; now left].
    + apply (HUx u); [assumption | apply elem_of_app; now right].
  - intros u Hu Hin. now apply (HDx u).
Qed.

Lemma entry_key (e : Endpoint) (l : list Endpoint) :
  e ∈ l -> endpointURI extractZone e ∈ endpointURI extractZone <$> l.
Proof. intros He. apply list_elem_of_fmap. now exists e. Qed.


Lemma live_create_entry c :
  c ∈ Create changes ->
  stRemote s !! endpointURI extractZone c
  = if hasZone extractZone c && negb (String.eqb (RecordType c) "TXT")
    then entryAfter (Client_AddZoneRRSet (extractZone (DNSName c)) (DNSName c)
                       (RecordType c) (map (newRecord (RecordType c)) (Targets c))
                       (RecordTTL c))
           (store !! endpointURI extractZone c)
    else store !! endpointURI extractZone c.
Proof.
  intros Hc. destruct keys_split as (_ & _ & HC & HUx & HDx).
  pose proof (entry_key c _ Hc) as Hk.
  rewrite live_remote.
  rewrite (afterTasks_omap_other extractZone _ (UpdateNew changes)
             _ _ (atEntry_teardown extractZone (UpdateOld changes)))
    by (intros Hin; destruct (HUx _ Hin) as [_ Hx]; now apply Hx).
  rewrite (afterTasks_omap_other extractZone _ (Delete changes)
             _ _ (atEntry_delete extractZone))
    by (intros Hin; now apply (HDx _ Hin)).
  rewrite (afterTasks_omap_entry extractZone _ (Create changes) c
             _ (atEntry_create extractZone) HC Hc).
  rewrite (afterTasks_omap_other extractZone _ (UpdateNew changes)
             _ _ (atEntry_updateAdd extractZone (UpdateOld changes)))
    by (intros Hin; destruct (HUx _ Hin) as [_ Hx]; now apply Hx).
  unfold createTask.
  destruct (hasZone extractZone c && negb (String.eqb (RecordType c) "TXT"));
    [| reflexivity].
  now rewrite entryAfter_taskBody.
Qed.


End LiveRun.





(** X1. A live run on a remote that answers every request is serialisable:
    with the resources of the entries pairwise distinct, whatever the
    interleaving of the goroutines, when [ApplyChanges] has returned nil
    every resource is what the closures working on it make of it when run
    alone, one after the other: the teardown of stale values, the deletion,
    the creation, the addition of new values. *)
Theorem live_run_serialisable (listing : list Zone * option error) (changes : Changes)
    (store : gmap uri RRSet) (s : state (gmap uri RRSet)) (u : uri) :
  let extractZone := zoneFromDNSNameGetter (GetDomainFilter listing) in
  HasChanges changes = true ->
  NoDup (endpointURI extractZone
           <$> (UpdateNew changes ++ Delete changes ++ Create changes)) ->
  reaches (served idealServe) false listing changes store s ->
  stMain s = Returned None ->
  stRemote s !! u
  = afterTasks u (omap (updateAddTask extractZone (UpdateOld changes)) (UpdateNew changes))
      (afterTasks u (omap (createTask extractZone) (Create changes))
        (afterTasks u (omap (deleteTask extractZone) (Delete changes))
          (afterTasks u (omap (teardownTask extractZone (UpdateOld changes))
                           (UpdateNew changes))
            (store !! u)))).
Proof. intros extractZone Hhas Hkeys Hrun Hret. now apply live_remote. Qed.



(** X2. A create entry of type TXT, or without a zone, is skipped: after a
    successful live run on a remote that answers every request, its
    resource is as it was. *)
Theorem live_create_skips_txt (listing : list Zone * option error)
    (changes : Changes) (store : gmap uri RRSet) (s : state (gmap uri RRSet))
    (c : Endpoint) :
  let extractZone := zoneFromDNSNameGetter (GetDomainFilter listing) in
  let u := endpointURI extractZone c in
  HasChanges changes = true ->
  NoDup (endpointURI extractZone
           <$> (UpdateNew changes ++ Delete changes ++ Create changes)) ->
  reaches (served idealServe) false listing changes store s ->
  stMain s = Returned None ->
  c ∈ Create changes ->
  extractZone (DNSName c) = "" \/ RecordType c = "TXT" ->
  stRemote s !! u = store !! u.
Proof.
  intros extractZone u Hhas Hkeys Hrun Hret Hc Hskip. unfold u, extractZone.
  rewrite (live_create_entry listing changes store s Hhas Hkeys Hrun Hret c Hc).
  unfold hasZone. fold extractZone. destruct Hskip as [-> | ->]; [reflexivity |].
  simpl. now rewrite andb_false_r.
Qed.



Lemma ran_not_None {A : Type} (o : option A) : bool_decide (is_Some o) = true -> o <> None.
Proof. intros H%bool_decide_eq_true_1. destruct H as [x ->]. discriminate. Qed.

End Properties.

(** * Sample runs *)

Lemma failedTeardown_reaches :
  reaches (ext := plainExternal) (served brokenServe) false sampleListing updateAndDelete tt
    failedTeardown.
Proof. apply afterSchedule_reaches, ran_not_None. reflexivity. Qed.

Lemma updateAddStarted_reaches :
  reaches (ext := plainExternal) (served idealServe) false sampleListing updateChanges storeA
    updateAddStarted.
Proof. apply afterSchedule_reaches, ran_not_None. reflexivity. Qed.

Lemma dryRunDone_reaches :
  reaches (ext := plainExternal) (served idealServe) true sampleListing createAndDelete storeB
    dryRunDone.
Proof. apply afterSchedule_reaches, ran_not_None. reflexivity. Qed.

Lemma createTXTDone_reaches :
  reaches (ext := plainExternal) (served idealServe) false sampleListing createTXT ∅
    createTXTDone.
Proof. apply afterSchedule_reaches, ran_not_None. reflexivity. Qed.

(** C2, as stated, fails: in this run the teardown goroutine of the update
    fails and the caller returns its error, yet the goroutine deleting
    [b.example.com] has been started. *)
Lemma teardown_failure_after_delete_dispatch :
  reaches (ext := plainExternal) (served brokenServe) false sampleListing updateAndDelete tt
    failedTeardown
  /\ (exists e, stErr2 failedTeardown = Some e
                /\ stMain failedTeardown = Returned (Some (applyError e)))
  /\ exists x, x ∈ stPool failedTeardown
               /\ taskStage (gTask x) = StageDelete
               /\ taskCall (gTask x)
                  = DeleteRRSetRecord "example.com" "b.example.com" "A" ["3.3.3.3"].
Proof.
  split; [exact failedTeardown_reaches |]. split.
  - eexists. split; reflexivity.
  - eexists. split; [apply list_elem_of_lookup; exists 1; reflexivity |].
    split; reflexivity.
Qed.

Lemma teardown_failure_stops_update_add_witness :
  exists e,
    stErr2 failedTeardown = Some e
    /\ (forall x, x ∈ stPool failedTeardown -> taskStage (gTask x) <> UpdateAdd)
    /\ stMain failedTeardown = Returned (Some (applyError e)).
Proof.
  eexists. split; [reflexivity |].
  destruct (teardown_failure_stops_update_add (ext := plainExternal) (served brokenServe)
              false sampleListing updateAndDelete tt failedTeardown _
              failedTeardown_reaches eq_refl) as (_ & Hlater).
  destruct (Hlater failedTeardown (rtc_refl _ _)) as (_ & Hnone & _ & _).
  split; [exact Hnone | reflexivity].
Defined.

Lemma teardown_completes_before_update_add_witness :
  exists x,
    x ∈ stPool updateAddStarted
    /\ taskStage (gTask x) = UpdateAdd
    /\ groupDone gr2 (stPool updateAddStarted)
    /\ stErr2 updateAddStarted = None.
Proof.
  eexists. split; [apply list_elem_of_lookup; exists 1; reflexivity |].
  split; [reflexivity |].
  assert (Hin : default (spawn gr1 {| taskStage := UpdateAdd;
                                      taskCall := AddZoneRRSet "" "" "" [] 0;
                                      taskErrMsg := [] |})
                  (stPool updateAddStarted !! 1) ∈ stPool updateAddStarted).
  { apply list_elem_of_lookup. exists 1. reflexivity. }
  destruct (teardown_completes_before_update_add (ext := plainExternal) (served idealServe)
              sampleListing updateChanges storeA updateAddStarted _
              updateAddStarted_reaches Hin eq_refl) as (_ & Hdone & Herr & _).
  split; [exact Hdone | exact Herr].
Defined.

Lemma unchanged_update_makes_no_call_witness :
  exists s,
    reaches (ext := plainExternal) (served idealServe) false sampleListing reorderChanges
      storeA s
    /\ stMain s = Returned None /\ stPool s = [] /\ stRemote s = storeA.
Proof.
  destruct (unchanged_update_makes_no_call (ext := plainExternal) (served idealServe)
              false sampleListing reorderChanges storeA) as [Hall [s [Hs Hmain]]].
  - intros d c Hd Hc _ t.
    apply list_elem_of_singleton in Hd, Hc. subst d c. simpl.
    rewrite !elem_of_cons, !elem_of_nil. tauto.
  - intros d Hd. inversion Hd.
  - intros c Hc. inversion Hc.
  - exists s. destruct (Hall s Hs) as (Hp & Hr & _). auto.
Defined.

Lemma AllZonesWithRecords_all_or_nothing_witness :
  exists i z e,
    twoZones !! i = Some z
    /\ secondFetchFails i (Trim (ZoneName z) dot) = inr e
    /\ AllZonesWithRecords twoZonesPage secondFetchFails [1; 0]
       = ([], Some (Errorf "zone info"
                     (Errorf (ZoneName z)
                       (Errorf (String.append "get zone " (Trim (ZoneName z) dot)) e)))).
Proof.
  destruct (AllZonesWithRecords_all_or_nothing twoZonesPage secondFetchFails [1; 0] twoZones)
    as (Hfail & _ & _).
  - reflexivity.
  - apply perm_swap.
  - apply Hfail.
    exists 1, {| ZoneName := "example.org."; ZoneRecords := [] |},
      (APIError 500 "internal error").
    split; reflexivity.
Defined.

(** C3, at a failing input: a dry run of [createAndDelete] still starts one
    goroutine per delete and create entry, with an empty list of values; the
    delete goroutine calls [DeleteRRSetRecord] and rewrites the RRSet of
    [b.example.com] with a PUT, the create goroutine calls [AddZoneRRSet] and
    POSTs an RRSet without records for [a.example.com], which the remote
    holds when [ApplyChanges] has returned nil. *)
Theorem dry_run_calls_remote :
  let p := planChanges (ext := plainExternal) true sampleListing createAndDelete in
  map taskCall (planDelete p) = [DeleteRRSetRecord "example.com" "b.example.com" "A" []]
  /\ map taskCall (planCreate p) = [AddZoneRRSet "example.com" "a.example.com" "A" [] 300]
  /\ snd (exec idealServe
            (Client_DeleteRRSetRecord "example.com" "b.example.com" "A" []) storeB)
     = [ReqGet uriB; ReqPut uriB (sampleRRSet 300 ["3.3.3.3"])]
  /\ snd (exec idealServe
            (Client_AddZoneRRSet "example.com" "a.example.com" "A" [] 300) storeB)
     = [ReqGet uriA; ReqPost uriA (sampleRRSet 300 [])]
  /\ reaches (served idealServe) true sampleListing createAndDelete storeB dryRunDone
  /\ stMain dryRunDone = Returned None
  /\ stRemote dryRunDone !! uriA = Some (sampleRRSet 300 [])
  /\ storeB !! uriA = None.
Proof.
  split; [reflexivity |]. split; [reflexivity |]. split; [reflexivity |].
  split; [reflexivity |]. split; [exact dryRunDone_reaches |].
  split; [reflexivity |]. split; reflexivity.
Qed.

(** C9, as stated, fails: for an RRSet that holds no record, removing the
    given contents leaves no record, yet [DeleteRRSetRecord] returns nil
    after the GET alone and the RRSet stays. *)
Lemma DeleteRRSetRecord_keeps_empty_rrset :
  keptRecords (ext := plainExternal) ["1.1.1.1"] (Records (sampleRRSet 300 [])) = []
  /\ exec idealServe
       (Client_DeleteRRSetRecord "example.com" "a.example.com" "A" ["1.1.1.1"])
       storeEmptyRRSet
     = (None, storeEmptyRRSet, [ReqGet uriA]).
Proof. split; reflexivity. Qed.

Lemma resolver_longest_suffix_witness :
  trimmedOf "a.b.example.com." "a.b.example.com"
  /\ zoneFromDNSNameGetter sampleZones "a.b.example.com." = "b.example.com"
  /\ zoneCandidate sampleZones "a.b.example.com" "b.example.com"
  /\ zoneCandidate sampleZones "a.b.example.com" "example.com"
  /\ ~ zoneCandidate sampleZones "a.b.example.com" "a.b.example.com"
  /\ exists s, zoneCandidate sampleZones "a.b.example.com" s
       /\ (forall s', zoneCandidate sampleZones "a.b.example.com" s' ->
            s' = s \/ String.length s' < String.length s)
       /\ trimmedOf s "b.example.com".
Proof.
  assert (Ht : trimmedOf "a.b.example.com." "a.b.example.com").
  { exists "", ".". split; [reflexivity |]. split; [exact I |]. split; [now split |].
    split; [intros [r Hr]; discriminate |]. intros H.
    repeat (apply endsWithDot_inv in H as [[? ?] | H]; [discriminate |]).
    now apply endsWithDot_empty in H. }
  split; [exact Ht |]. split; [reflexivity |].
  split; [| split; [| split]].
  - split; [right; now exists "a" |]. split; [now exists "b", "example.com" |].
    apply list_elem_of_lookup. now exists 2.
  - split; [right; now exists "a.b" |]. split; [now exists "example", "com" |].
    apply list_elem_of_lookup. now exists 0.
  - intros (_ & _ & Hin). unfold sampleZones in Hin.
    repeat (apply elem_of_cons in Hin as [Hin | Hin]; [discriminate |]).
    now apply elem_of_nil in Hin.
  - destruct (resolver_longest_suffix sampleZones "a.b.example.com." "a.b.example.com" Ht)
      as [[[Hnone _] | (s & Hs & Hmax & Htrim & _)] _]; [discriminate |].
    exists s. split; [exact Hs |]. split; [exact Hmax | exact Htrim].
Defined.

Lemma updateDone_reaches :
  reaches (ext := plainExternal) (served idealServe) false sampleListing updateChanges storeA
    updateDone.
Proof. apply afterSchedule_reaches, ran_not_None. reflexivity. Qed.


Lemma sample_keys_distinct (changes : Changes) :
  bool_decide (NoDup (endpointURI (zoneFromDNSNameGetter (GetDomainFilter (ext := plainExternal) sampleListing))
                        <$> (UpdateNew changes ++ Delete changes ++ Create changes))) = true ->
  NoDup (endpointURI (zoneFromDNSNameGetter (GetDomainFilter (ext := plainExternal) sampleListing))
           <$> (UpdateNew changes ++ Delete changes ++ Create changes)).
Proof. apply bool_decide_eq_true_1. Qed.



Lemma live_run_serialisable_witness :
  stRemote updateDone !! uriA = Some (sampleRRSet 300 ["2.2.2.2"]).
Proof.
  rewrite (live_run_serialisable (ext := plainExternal) sampleListing updateChanges storeA
             updateDone uriA eq_refl (sample_keys_distinct updateChanges eq_refl)
             updateDone_reaches eq_refl).
  reflexivity.
Defined.

Lemma live_create_skips_txt_witness :
  stRemote createTXTDone !! ("example.com", "a.example.com", "TXT") = None.
Proof.
  apply (live_create_skips_txt (ext := plainExternal) sampleListing createTXT ∅ createTXTDone
           ownerTXT eq_refl (sample_keys_distinct createTXT eq_refl)
           createTXTDone_reaches eq_refl).
  - left.
  - now right.
Defined.

Example extractAllZones_ex :
  extractAllZones "a.b.example.com." = ["a.b.example.com"; "b.example.com"; "example.com"].
Proof. reflexivity. Qed.

Example resolver_ex :
  let r := zoneFromDNSNameGetter ["example.com"; ".example.com"; "b.example.com"; ".b.example.com"] in
  (r "a.b.example.com", r "x.example.com", r "example.org", r "com")
  = ("b.example.com", "example.com", "", "").
Proof. reflexivity. Qed.
